(** * A shallow embedding of Texdit's command and connectivity engine

    Sources embedded here:
    - [src/commandmanager.cpp]  : CommandManager (parser, dispatcher, formatter)
    - [src/servermanager.cpp]   : ServerManager (health probing, requests)
    - [src/commandRegistry.cpp] : commandRegistry (static catalogue, suggestions)

    Conventions of the model.
    - A [QString] is a [string]; each byte is one character, read as the
      Unicode code point U+0000..U+00FF (Latin-1).  [QChar::isSpace],
      [QString::toLower] and Qt's case folding are written out on that range.
    - A [double] is a binary64 [PrimFloat.float]; the C++ literals 0.05, 0.9,
      1.1, 0.25, 0.20, 0.30 are read with the same round-to-nearest rule.
    - A [QJsonObject] is an association list with unique keys.
    - Qt signals and the user callback are recorded as events in a log; the
      Qt objects' fields form an explicit state threaded by a small
      state-and-log monad. *)

From Stdlib Require Import ZArith Bool List String Ascii Floats Uint63 Lia.
Import ListNotations.
Open Scope string_scope.
Set Warnings "-inexact-float,-register-all".

(** ** Characters and strings (QChar / QString on U+0000..U+00FF) *)

Module QStr.

Definition code (c : ascii) : nat := nat_of_ascii c.

(** [QChar::isSpace]: U+0009..U+000D, U+0020, U+0085, U+00A0. *)
Definition isSpace (c : ascii) : bool :=
  let n := code c in
  (n =? 32)%nat || ((9 <=? n)%nat && (n <=? 13)%nat) || (n =? 133)%nat || (n =? 160)%nat.

(** [QChar::toLower]: A..Z and U+00C0..U+00DE except U+00D7. *)
Definition toLowerChar (c : ascii) : ascii :=
  let n := code c in
  if ((65 <=? n)%nat && (n <=? 90)%nat)
     || ((192 <=? n)%nat && (n <=? 222)%nat && negb (n =? 215)%nat)
  then ascii_of_nat (n + 32) else c.

(** Simple case folding (used by [Qt::CaseInsensitive] comparisons), as a
    code point: it agrees with [toLowerChar] except that U+00B5 (micro sign)
    folds to U+03BC. *)
Definition foldCase (c : ascii) : Z :=
  if (code c =? 181)%nat then 956%Z else Z.of_nat (code (toLowerChar c)).

Fixpoint toLower (s : string) : string :=
  match s with
  | EmptyString => EmptyString
  | String c r => String (toLowerChar c) (toLower r)
  end.

Fixpoint dropSpaces (l : list ascii) : list ascii :=
  match l with
  | c :: r => if isSpace c then dropSpaces r else l
  | [] => []
  end.

(** [QString::trimmed]. *)
Definition trimmed (s : string) : string :=
  string_of_list_ascii
    (rev (dropSpaces (rev (dropSpaces (list_ascii_of_string s))))).

Definition isEmpty (s : string) : bool := String.eqb s "".

(** [QString::split(' ', Qt::KeepEmptyParts)]. *)
Fixpoint splitKeep (s : string) : list string :=
  match s with
  | EmptyString => [""]
  | String c r =>
      if Ascii.eqb c " " then "" :: splitKeep r
      else match splitKeep r with
           | w :: ws => String c w :: ws
           | [] => [String c ""]
           end
  end.

(** [QString::split(' ', Qt::SkipEmptyParts)]. *)
Definition splitSkip (s : string) : list string :=
  filter (fun w => negb (isEmpty w)) (splitKeep s).

(** [QString::startsWith(p)] (case-sensitive). *)
Fixpoint startsWith (s p : string) : bool :=
  match p, s with
  | EmptyString, _ => true
  | String a p', String b s' => Ascii.eqb a b && startsWith s' p'
  | String _ _, EmptyString => false
  end.

(** [QString::startsWith(p, Qt::CaseInsensitive)]: compares case folds. *)
Fixpoint startsWithCI (s p : string) : bool :=
  match p, s with
  | EmptyString, _ => true
  | String a p', String b s' => Z.eqb (foldCase a) (foldCase b) && startsWithCI s' p'
  | String _ _, EmptyString => false
  end.

(** [QString::toInt(&ok)] in base 10: surrounding white space is skipped, an
    optional sign, one or more decimal digits, and the value must fit in a
    32-bit [int]; [None] stands for [ok == false]. *)
Definition digitValue (c : ascii) : option Z :=
  let n := code c in
  if (48 <=? n)%nat && (n <=? 57)%nat then Some (Z.of_nat (n - 48)) else None.

Fixpoint digitsValue (acc : Z) (l : list ascii) : option Z :=
  match l with
  | [] => Some acc
  | c :: r => match digitValue c with
              | Some d => digitsValue (acc * 10 + d)%Z r
              | None => None
              end
  end.

Definition unsignedValue (l : list ascii) : option Z :=
  match l with [] => None | _ => digitsValue 0 l end.

Definition toInt (s : string) : option Z :=
  let l := list_ascii_of_string (trimmed s) in
  let v := match l with
           | c :: r => if Ascii.eqb c "+" then unsignedValue r
                       else if Ascii.eqb c "-" then option_map Z.opp (unsignedValue r)
                       else unsignedValue l
           | [] => None
           end in
  match v with
  | Some z => if (-2147483648 <=? z)%Z && (z <=? 2147483647)%Z then Some z else None
  | None => None
  end.

(** Decimal rendering of an integer, as typed by a user or produced by
    [QString::arg(int)]. *)
Fixpoint natDigits (fuel n : nat) (acc : string) : string :=
  match fuel with
  | O => acc
  | S f => let d := Nat.modulo n 10 in
           let acc' := String (ascii_of_nat (48 + d)) acc in
           if (n <? 10)%nat then acc' else natDigits f (Nat.div n 10) acc'
  end.

Definition ofInt (z : Z) : string :=
  if (z <? 0)%Z then String "-" (natDigits (Z.to_nat (- z)) (Z.to_nat (- z)) "")
  else natDigits (Z.to_nat z) (Z.to_nat z) "".

End QStr.

(** ** JSON values (QJsonValue / QJsonObject) *)

Module Json.

Inductive value : Type :=
| Null
| Bool (b : bool)
| Double (f : float)
| Integer (z : Z)
| Str (s : string)
| Array (l : list value)
| Object (o : list (string * value)).

Definition object := list (string * value).

(** [obj[k] = v]: replaces the value of an existing key, otherwise adds it. *)
Fixpoint insert (k : string) (v : value) (o : object) : object :=
  match o with
  | [] => [(k, v)]
  | (k', v') :: r => if String.eqb k k' then (k, v) :: r else (k', v') :: insert k v r
  end.

Fixpoint lookup (k : string) (o : object) : option value :=
  match o with
  | [] => None
  | (k', v) :: r => if String.eqb k k' then Some v else lookup k r
  end.

Definition contains (k : string) (o : object) : bool :=
  match lookup k o with Some _ => true | None => false end.

(** [QJsonValue::toString()]: the string, or "" for any other kind
    (an absent key reads as Undefined). *)
Definition toString (v : option value) : string :=
  match v with Some (Str s) => s | _ => "" end.

(** [QJsonValue::toDouble()]. *)
Definition toDouble (v : option value) : float :=
  match v with
  | Some (Double f) => f
  | Some (Integer z) => if (0 <=? z)%Z then PrimFloat.of_uint63 (Uint63.of_Z z)
                        else (- PrimFloat.of_uint63 (Uint63.of_Z (- z)))%float
  | _ => 0%float
  end.

(** The integer a finite double holds exactly, if any. *)
Definition doubleIntValue (f : float) : option Z :=
  match FloatOps.Prim2SF f with
  | SpecFloat.S754_zero _ => Some 0%Z
  | SpecFloat.S754_finite sgn m e =>
      let sign := fun z : Z => if sgn then Z.opp z else z in
      if (0 <=? e)%Z then Some (sign (Z.pos m * 2 ^ e)%Z)
      else if (Z.pos m mod 2 ^ (- e) =? 0)%Z then Some (sign (Z.pos m / 2 ^ (- e))%Z)
      else None
  | _ => None
  end.

(** [QJsonValue::toInt()]: an integer value in [int] range, else 0. *)
Definition toInt (v : option value) : Z :=
  match v with
  | Some (Integer z) => if (-2147483648 <=? z)%Z && (z <=? 2147483647)%Z then z else 0%Z
  | Some (Double f) =>
      match doubleIntValue f with
      | Some n => if (-2147483648 <=? n)%Z && (n <=? 2147483647)%Z then n else 0%Z
      | None => 0%Z
      end
  | _ => 0%Z
  end.

(** [QJsonValue::toObject()]. *)
Definition toObject (v : option value) : object :=
  match v with Some (Object o) => o | _ => [] end.

End Json.

(** ** CommandManager: the command table and the parser *)

Module CM.

Inductive CommandResult : Type :=
| Success | InvalidCommand | ServerError | ValidationError | ExecutionError.

Inductive ExecutionState : Type := Idle | Executing.

Record CommandInfo : Type := mkInfo {
  name : string;
  description : string;
  requiresServer : bool;
  requiresInput : bool
}.

(** [CommandManager::initializeCommands], in the key order in which the
    [QMap] stores and iterates them. *)
Definition commands : list (string * CommandInfo) :=
  [ ("clear", mkInfo "clear" "Clear the input text" false false);
    ("help", mkInfo "help" "Show available commands and their descriptions" false false);
    ("keywords", mkInfo "keywords" "Extract key words and phrases from the text" true true);
    ("rephrase", mkInfo "rephrase" "Rephrase the text while maintaining meaning" true true);
    ("rewrite", mkInfo "rewrite" "Rewrite the text with improved clarity and structure" true true);
    ("summarise", mkInfo "summarise"
       "Generate a summary of the input text. Usage: 'summarise' (20-30%) or 'summarise <percentage>' (e.g., 'summarise 50' for 45-55% range)"
       true true);
    ("tone", mkInfo "tone" "Analyze and adjust the tone of the text" true true) ].

Definition containsCommand (k : string) : bool :=
  existsb (fun e => String.eqb (fst e) k) commands.

(** [CommandManager::getCommandInfo]: the default [{"", "", false, false}]
    for an unknown name. *)
Definition getCommandInfo (k : string) : CommandInfo :=
  match find (fun e => String.eqb (fst e) k) commands with
  | Some (_, i) => i
  | None => mkInfo "" "" false false
  end.

(** [CommandManager::handleServerStatusChange]: the commands that do not
    need the server, or all of them when the server is ready. *)
Definition availableFor (serverReady : bool) : list string :=
  map fst (filter (fun e => negb (requiresServer (snd e)) || serverReady) commands).

(** [qMax(a, b)] is [(a < b) ? b : a]. *)
Definition qMax (a b : float) : float := if PrimFloat.ltb a b then b else a.

(** [int] to [double]. *)
Definition doubleOfInt (z : Z) : float :=
  if (0 <=? z)%Z then PrimFloat.of_uint63 (Uint63.of_Z z)
  else (- PrimFloat.of_uint63 (Uint63.of_Z (- z)))%float.

(** [CommandManager::parseCommandWithArgs].  The C++ function returns a
    [bool] and fills two out-parameters; here [Some (baseCommand, args)]
    is the [true] return with the values written, [None] the [false] return
    (no caller reads the out-parameters after a [false] return). *)
Definition parseCommandWithArgs (command : string) : option (string * Json.object) :=
  match QStr.splitSkip command with
  | [] => None
  | part0 :: rest =>
      let baseCommand := QStr.toLower part0 in
      if String.eqb baseCommand "summarise" || String.eqb baseCommand "summarize" then
        match rest with
        | [] =>
            let args := Json.insert "ratio" (Json.Double 0.25) [] in
            let args := Json.insert "min_ratio" (Json.Double 0.20) args in
            let args := Json.insert "max_ratio" (Json.Double 0.30) args in
            Some ("summarise", args)
        | [part1] =>
            match QStr.toInt part1 with
            | None => None
            | Some percentage =>
                if (percentage <=? 0)%Z || (100 <=? percentage)%Z then None
                else
                  let ratio := (doubleOfInt percentage / 100.0)%float in
                  let args := Json.insert "ratio" (Json.Double ratio) [] in
                  let minRatio := qMax 0.05 (ratio * 0.9)%float in
                  let maxRatio := (ratio * 1.1)%float in
                  let args := Json.insert "min_ratio" (Json.Double minRatio) args in
                  let args := Json.insert "max_ratio" (Json.Double maxRatio) args in
                  Some ("summarise", args)
            end
        | _ :: _ :: _ => None
        end
      else if containsCommand baseCommand then Some (baseCommand, [])
      else None
  end.

End CM.

(** ** The dispatcher and the connectivity monitor as one state machine *)

Module Engine.
Import CM.

Inductive ServerStatus : Type := Disconnected | Connecting | Connected | Error.

Definition statusEqb (a b : ServerStatus) : bool :=
  match a, b with
  | Disconnected, Disconnected | Connecting, Connecting
  | Connected, Connected | Error, Error => true
  | _, _ => false
  end.

Definition SERVER_BASE_URL : string := "http://127.0.0.1:5000".
Definition MAX_RETRY_ATTEMPTS : Z := 15.

Definition nl : string := String (ascii_of_nat 10) "".

(** Literal prefixes of [formatServerResponse], kept as the bytes of the
    source file. *)
Definition bullet : string := "â€¢".
Definition boltIcon : string := "âš¡".
Definition chartIcon : string := "ðŸ“Š".
Definition checkIcon : string := "âœ…".
Definition crossIcon : string := "âŒ".

(** A command request waiting for its reply: the closures [executeServerCommand]
    hands to [makeRequest] capture the raw command and its base command. *)
Record PendingCommand : Type := mkPending {
  pendingCommand : string;
  pendingBase : string
}.

(** [QJsonDocument::fromJson] on the reply body. *)
Inductive Body : Type :=
| BodyParseError (errorString : string)
| BodyDocument (doc : Json.value).

(** A finished [QNetworkReply] of a command request. *)
Inductive Reply : Type :=
| ReplyNoError (body : Body)
| ReplyNetworkError (errorString : string).

(** Fields of ServerManager and CommandManager. *)
Record Sys : Type := mkSys {
  currentStatus : ServerStatus;
  consecutiveFailures : Z;
  availableCommands : list string;
  executionState : ExecutionState;
  inflight : option PendingCommand
}.

(** Signals, user callbacks and network traffic, in the order they happen. *)
Inductive Event : Type :=
| StatusChanged (s : ServerStatus)
| ServerReady
| ServerErrorSignal (msg : string)
| ExecutionStateChanged (e : ExecutionState)
| Callback (r : CommandResult) (msg : string)
| CommandExecuted (command : string) (r : CommandResult) (msg : string)
| HealthProbe
| Post (url : string) (data : Json.object).

(** The state-and-log monad. *)
Definition M (A : Type) : Type := Sys -> A * Sys * list Event.

Definition ret {A} (a : A) : M A := fun s => (a, s, []).

Definition bind {A B} (m : M A) (k : A -> M B) : M B :=
  fun s => let '(a, s1, e1) := m s in
           let '(b, s2, e2) := k a s1 in (b, s2, (e1 ++ e2)%list).

Notation "x <- m ;; k" := (bind m (fun x => k))
  (at level 61, m at next level, right associativity).
Notation "m ;; k" := (bind m (fun _ : unit => k))
  (at level 61, right associativity).

Definition get : M Sys := fun s => (s, s, []).
Definition modify (f : Sys -> Sys) : M unit := fun s => (tt, f s, []).
Definition emit (e : Event) : M unit := fun s => (tt, s, [e]).

Definition setCurrentStatus (v : ServerStatus) (s : Sys) : Sys :=
  mkSys v (consecutiveFailures s) (availableCommands s) (executionState s) (inflight s).
Definition setFailures (v : Z) (s : Sys) : Sys :=
  mkSys (currentStatus s) v (availableCommands s) (executionState s) (inflight s).
Definition setAvailable (v : list string) (s : Sys) : Sys :=
  mkSys (currentStatus s) (consecutiveFailures s) v (executionState s) (inflight s).
Definition setExecutionState (v : ExecutionState) (s : Sys) : Sys :=
  mkSys (currentStatus s) (consecutiveFailures s) (availableCommands s) v (inflight s).
Definition setInflight (v : option PendingCommand) (s : Sys) : Sys :=
  mkSys (currentStatus s) (consecutiveFailures s) (availableCommands s) (executionState s) v.

(** [ServerManager::isReady]. *)
Definition isReady (s : Sys) : bool := statusEqb (currentStatus s) Connected.

(** [CommandManager::handleServerStatusChange], the slot connected to
    [statusChanged]. *)
Definition handleServerStatusChange : M unit :=
  st <- get ;;
  modify (setAvailable (availableFor (isReady st))).

(** [ServerManager::setStatus]; the [statusChanged] signal runs the
    dispatcher's slot synchronously. *)
Definition setStatus (status : ServerStatus) : M unit :=
  st <- get ;;
  if statusEqb (currentStatus st) status then ret tt
  else
    modify (setCurrentStatus status) ;;
    emit (StatusChanged status) ;;
    handleServerStatusChange ;;
    if statusEqb status Connected
    then modify (setFailures 0) ;; emit ServerReady
    else ret tt.

(** [ServerManager::startHealthMonitoring]: enter Connecting and probe. *)
Definition startHealthMonitoring : M unit :=
  setStatus Connecting ;; emit HealthProbe.

(** [ServerManager::handleHealthCheckResponse] for a finished probe;
    [None] is [QNetworkReply::NoError], [Some e] an error with its
    [errorString]. *)
Definition handleHealthCheckResponse (err : option string) : M unit :=
  match err with
  | None =>
      modify (setFailures 0) ;;
      st <- get ;;
      if negb (statusEqb (currentStatus st) Connected) then setStatus Connected
      else ret tt
  | Some es =>
      st0 <- get ;;
      modify (setFailures (consecutiveFailures st0 + 1)) ;;
      st <- get ;;
      if (MAX_RETRY_ATTEMPTS <=? consecutiveFailures st)%Z then
        setStatus Error ;;
        emit (ServerErrorSignal ("Server unreachable after 15 attempts: " ++ es))
      else setStatus Connecting
  end.

Section WithNumberFormat.

(** [QString::number(d, 'f', prec)]: fixed-point rendering of a double. *)
Variable numberFixed : float -> nat -> string.

(** [CommandManager::formatServerResponse]. *)
Definition formatServerResponse (command : string) (response : Json.object) : string :=
  if String.eqb command "summarise" then
    if Json.contains "error" response then
      "Error: " ++ Json.toString (Json.lookup "error" response)
    else
      let summary := Json.toString (Json.lookup "summary" response) in
      let originalLength := Json.toInt (Json.lookup "original_length" response) in
      let summaryLength := Json.toInt (Json.lookup "summary_length" response) in
      let compressionRatio := Json.toDouble (Json.lookup "compression_ratio" response) in
      let performanceInfo :=
        if Json.contains "performance" response then
          let perf := Json.toObject (Json.lookup "performance" response) in
          let totalTime := Json.toDouble (Json.lookup "total_time" perf) in
          let tokenizationTime := Json.toDouble (Json.lookup "tokenization_time" perf) in
          let generationTime := Json.toDouble (Json.lookup "generation_time" perf) in
          let decodingTime := Json.toDouble (Json.lookup "decoding_time" perf) in
          nl ++ nl ++ boltIcon ++ " Performance Metrics (DistilBART-CNN-12-6):" ++ nl
          ++ bullet ++ " Total time: " ++ numberFixed totalTime 2 ++ "s" ++ nl
          ++ bullet ++ " Tokenization: " ++ numberFixed tokenizationTime 2 ++ "s" ++ nl
          ++ bullet ++ " Generation: " ++ numberFixed generationTime 2 ++ "s" ++ nl
          ++ bullet ++ " Decoding: " ++ numberFixed decodingTime 2 ++ "s"
        else "" in
      summary
      ++ nl ++ nl ++ chartIcon ++ " Summary Stats:" ++ nl
      ++ bullet ++ " Original: " ++ QStr.ofInt originalLength ++ " words" ++ nl
      ++ bullet ++ " Summary: " ++ QStr.ofInt summaryLength ++ " words ("
      ++ numberFixed (compressionRatio * 100)%float 1 ++ "%)" ++ nl
      ++ bullet ++ " Quality: High-precision summary with intelligent length control"
      ++ performanceInfo
  else
    let result := Json.toString (Json.lookup "result" response) in
    let result := if QStr.isEmpty result
                  then Json.toString (Json.lookup "output" response) else result in
    if QStr.isEmpty result
    then "Command '" ++ command ++ "' executed successfully"
    else result.

(** [wrappedCallback] of [CommandManager::executeCommand]: back to Idle,
    then the caller's callback. *)
Definition wrappedCallback (result : CommandResult) (output : string) : M unit :=
  modify (setExecutionState Idle) ;;
  emit (ExecutionStateChanged Idle) ;;
  emit (Callback result output).

(** The success closure of [executeServerCommand]. *)
Definition commandOnSuccess (h : PendingCommand) (response : Json.object) : M unit :=
  let result := formatServerResponse (pendingBase h) response in
  wrappedCallback Success result ;;
  emit (CommandExecuted (pendingCommand h) Success result).

(** The error closure of [executeServerCommand]. *)
Definition commandOnError (h : PendingCommand) (error : string) : M unit :=
  let errorMsg := "Server command failed: " ++ error in
  wrappedCallback ServerError errorMsg ;;
  emit (CommandExecuted (pendingCommand h) ServerError errorMsg).

(** [ServerManager::makeRequest] for a command request: refused unless
    Connected, otherwise the POST is issued and the reply awaited. *)
Definition makeRequest (endpoint : string) (data : Json.object) (h : PendingCommand)
  : M unit :=
  st <- get ;;
  if negb (statusEqb (currentStatus st) Connected) then
    commandOnError h "Server not available for requests"
  else
    emit (Post (SERVER_BASE_URL ++ endpoint) data) ;;
    modify (setInflight (Some h)).

(** The [finished] handler [makeRequest] connects to the reply. *)
Definition requestFinished (r : Reply) : M unit :=
  st0 <- get ;;
  match inflight st0 with
  | None => ret tt
  | Some h =>
      modify (setInflight None) ;;
      match r with
      | ReplyNoError (BodyDocument (Json.Object o)) => commandOnSuccess h o
      | ReplyNoError (BodyDocument _) =>
          commandOnError h "Invalid JSON response: no error occurred"
      | ReplyNoError (BodyParseError e) =>
          commandOnError h ("Invalid JSON response: " ++ e)
      | ReplyNetworkError es =>
          let errorMsg := "Network error: " ++ es in
          st1 <- get ;;
          modify (setFailures (consecutiveFailures st1 + 1)) ;;
          st <- get ;;
          (if (MAX_RETRY_ATTEMPTS <=? consecutiveFailures st)%Z
              && statusEqb (currentStatus st) Connected
           then setStatus Error else ret tt) ;;
          commandOnError h errorMsg
      end
  end.

(** [CommandManager::executeLocalCommand]. *)
Definition executeLocalCommand (command inputText : string) : M unit :=
  st <- get ;;
  let result :=
    if String.eqb command "help" then
      let line := fun cmd =>
        let info := getCommandInfo cmd in
        let status := if existsb (String.eqb cmd) (availableCommands st)
                      then checkIcon else crossIcon in
        status ++ " " ++ cmd ++ " - " ++ description info in
      String.concat nl ("Available Commands:" :: "" :: map line (availableCommands st))
    else if String.eqb command "clear" then "Input cleared"
    else "Local command '" ++ command ++ "' executed successfully" in
  wrappedCallback Success result ;;
  emit (CommandExecuted command Success result).

(** [CommandManager::executeServerCommand]; [now] is
    [QDateTime::currentSecsSinceEpoch()]. *)
Definition executeServerCommand (command inputText : string) (now : Z) : M unit :=
  match parseCommandWithArgs command with
  | None =>
      let error := "Invalid command format: " ++ command in
      wrappedCallback ValidationError error ;;
      emit (CommandExecuted command ValidationError error)
  | Some (baseCommand, requestData) =>
      let requestData := Json.insert "text" (Json.Str inputText) requestData in
      let requestData := Json.insert "timestamp" (Json.Integer now) requestData in
      makeRequest ("/api/" ++ baseCommand) requestData (mkPending command baseCommand)
  end.

(** The early exits of [executeCommand] after the gate is set. *)
Definition failEarly (command : string) (r : CommandResult) (error : string) : M unit :=
  modify (setExecutionState Idle) ;;
  emit (ExecutionStateChanged Idle) ;;
  emit (Callback r error) ;;
  emit (CommandExecuted command r error).

(** [CommandManager::executeCommand]. *)
Definition executeCommand (command inputText : string) (now : Z) : M unit :=
  st <- get ;;
  match executionState st with
  | Executing =>
      let error := "Cannot execute command: another command is already running" in
      emit (Callback ExecutionError error) ;;
      emit (CommandExecuted command ExecutionError error)
  | Idle =>
      modify (setExecutionState Executing) ;;
      emit (ExecutionStateChanged Executing) ;;
      match parseCommandWithArgs command with
      | None => failEarly command InvalidCommand ("Unknown command: " ++ command)
      | Some (baseCommand, _) =>
          let info := getCommandInfo baseCommand in
          st1 <- get ;;
          if negb (existsb (String.eqb baseCommand) (availableCommands st1)) then
            failEarly command ServerError
              ("Command '" ++ baseCommand ++ "' is not available (server required but not ready)")
          else if requiresInput info && QStr.isEmpty (QStr.trimmed inputText) then
            failEarly command ValidationError
              ("Command '" ++ baseCommand ++ "' requires input text")
          else if requiresServer info then executeServerCommand command inputText now
          else executeLocalCommand baseCommand inputText
      end
  end.

(** What drives the two objects: the user, the probe timer and the network. *)
Inductive Input : Type :=
| StartMonitoring
| HealthCheckFinished (err : option string)
| ExecuteCommand (command inputText : string) (now : Z)
| RequestFinished (r : Reply).

Definition step (i : Input) : M unit :=
  match i with
  | StartMonitoring => startHealthMonitoring
  | HealthCheckFinished err => handleHealthCheckResponse err
  | ExecuteCommand c t now => executeCommand c t now
  | RequestFinished r => requestFinished r
  end.

Fixpoint run (tr : list Input) : M unit :=
  match tr with
  | [] => ret tt
  | i :: r => step i ;; run r
  end.

End WithNumberFormat.

(** After both constructors: Disconnected, no failures, the dispatcher's
    list computed for a server that is not ready, Idle. *)
Definition initial : Sys := mkSys Disconnected 0 (availableFor false) Idle None.

Definition stateOf {A} (r : A * Sys * list Event) : Sys := snd (fst r).
Definition eventsOf {A} (r : A * Sys * list Event) : list Event := snd r.

Definition reachable (numberFixed : float -> nat -> string) (s : Sys) : Prop :=
  exists tr, stateOf (run numberFixed tr initial) = s.

End Engine.

(** ** commandRegistry: the catalogue and the suggestion engine *)

Module Registry.

(** [commandRegistry::getAllCommands]. *)
Definition getAllCommands : list string :=
  ["summarise"; "tone"; "font"; "highlight"; "keywords"; "rephrase"; "rewrite"].

(** The argument completions of one command: every option kept when the
    current argument is empty or a prefix of it ([ci] selects
    [Qt::CaseInsensitive]). *)
Definition optionSuggestions (commandName currentArg : string) (ci : bool)
  (options : list string) : list string :=
  map (fun option => commandName ++ " " ++ option)
    (filter (fun option => QStr.isEmpty currentArg
                           || (if ci then QStr.startsWithCI option currentArg
                               else QStr.startsWith option currentArg))
       options).

(** [commandRegistry::getContextualSuggestions]. *)
Definition getContextualSuggestions (input : string) : list string :=
  let trimmedInput := QStr.trimmed input in
  if QStr.isEmpty trimmedInput then ["summarise"; "tone"; "highlight"]
  else
    let parts := QStr.splitKeep trimmedInput in
    match parts with
    | [part0] =>
        let partial := QStr.toLower part0 in
        let suggestions :=
          filter (fun cmd => QStr.startsWithCI cmd partial) getAllCommands in
        if (3 <? List.length suggestions)%nat then firstn 3 suggestions else suggestions
    | part0 :: rest =>
        let commandName := QStr.toLower part0 in
        let currentArg := match rest with part1 :: _ => part1 | [] => "" end in
        if String.eqb commandName "summarise" then
          optionSuggestions commandName currentArg false ["10"; "25"; "50"; "75"]
        else if String.eqb commandName "tone" then
          optionSuggestions commandName currentArg true ["formal"; "casual"; "playful"]
        else if String.eqb commandName "font" then
          optionSuggestions commandName currentArg true ["Arial"; "Calibri"; "Georgia"; "Verdana"]
        else if String.eqb commandName "highlight" then
          optionSuggestions commandName currentArg true ["keywords"; "grammar"]
        else if existsb (String.eqb commandName) getAllCommands then [commandName]
        else []
    | [] => []
    end.

End Registry.

(** ** Text beyond U+00FF: [getContextualSuggestions] over code points *)

Module UStr.

(** A [QString] of BMP text (no surrogate pairs) as its list of UTF-16 code
    units, each one code point. *)
Definition ofChar (c : ascii) : Z := Z.of_nat (nat_of_ascii c).

Definition ofString (s : string) : list Z := map ofChar (list_ascii_of_string s).

(** Qt's character tables as [QString] uses them: [isSpaceC] is
    [QChar::isSpace], [lowerC] the lowercase mapping of [QString::toLower]
    (where Unicode's special casing applies one character becomes several),
    [foldC] the simple case folding that [Qt::CaseInsensitive] compares. *)
Record CharTable : Type := {
  isSpaceC : Z -> bool;
  lowerC : Z -> list Z;
  foldC : Z -> Z
}.

Section WithTable.
Variable t : CharTable.

Fixpoint dropSpaces (l : list Z) : list Z :=
  match l with
  | c :: r => if isSpaceC t c then dropSpaces r else l
  | [] => []
  end.

(** [QString::trimmed]. *)
Definition trimmed (s : list Z) : list Z := rev (dropSpaces (rev (dropSpaces s))).

Definition isEmpty (s : list Z) : bool := match s with [] => true | _ => false end.

(** [QString::split(' ', Qt::KeepEmptyParts)]. *)
Fixpoint splitKeep (s : list Z) : list (list Z) :=
  match s with
  | [] => [[]]
  | c :: r =>
      if Z.eqb c 32 then [] :: splitKeep r
      else match splitKeep r with
           | w :: ws => (c :: w) :: ws
           | [] => [[c]]
           end
  end.

(** [QString::toLower]. *)
Definition toLower (s : list Z) : list Z := flat_map (lowerC t) s.

(** [QString::startsWith(p)] (case-sensitive). *)
Fixpoint startsWith (s p : list Z) : bool :=
  match p, s with
  | [], _ => true
  | a :: p', b :: s' => Z.eqb a b && startsWith s' p'
  | _ :: _, [] => false
  end.

(** [QString::startsWith(p, Qt::CaseInsensitive)]: compares case folds. *)
Fixpoint startsWithCI (s p : list Z) : bool :=
  match p, s with
  | [], _ => true
  | a :: p', b :: s' => Z.eqb (foldC t a) (foldC t b) && startsWithCI s' p'
  | _ :: _, [] => false
  end.

(** [QString::operator==]. *)
Fixpoint eqb (a b : list Z) : bool :=
  match a, b with
  | [], [] => true
  | x :: a', y :: b' => Z.eqb x y && eqb a' b'
  | _, _ => false
  end.

Definition optionSuggestions (commandName currentArg : list Z) (ci : bool)
  (options : list string) : list (list Z) :=
  map (fun option => (commandName ++ ofString " " ++ option)%list)
    (filter (fun option => isEmpty currentArg
                           || (if ci then startsWithCI option currentArg
                               else startsWith option currentArg))
       (map ofString options)).

(** [commandRegistry::getContextualSuggestions]. *)
Definition getContextualSuggestions (input : list Z) : list (list Z) :=
  let trimmedInput := trimmed input in
  if isEmpty trimmedInput then map ofString ["summarise"; "tone"; "highlight"]
  else
    let parts := splitKeep trimmedInput in
    match parts with
    | [part0] =>
        let partial := toLower part0 in
        let suggestions :=
          filter (fun cmd => startsWithCI cmd partial) (map ofString Registry.getAllCommands) in
        if (3 <? List.length suggestions)%nat then firstn 3 suggestions else suggestions
    | part0 :: rest =>
        let commandName := toLower part0 in
        let currentArg := match rest with part1 :: _ => part1 | [] => [] end in
        if eqb commandName (ofString "summarise") then
          optionSuggestions commandName currentArg false ["10"; "25"; "50"; "75"]
        else if eqb commandName (ofString "tone") then
          optionSuggestions commandName currentArg true ["formal"; "casual"; "playful"]
        else if eqb commandName (ofString "font") then
          optionSuggestions commandName currentArg true ["Arial"; "Calibri"; "Georgia"; "Verdana"]
        else if eqb commandName (ofString "highlight") then
          optionSuggestions commandName currentArg true ["keywords"; "grammar"]
        else if existsb (eqb commandName) (map ofString Registry.getAllCommands) then [commandName]
        else []
    | [] => []
    end.

End WithTable.

(** The table entries of U+0000..U+017F (Basic Latin, Latin-1 Supplement and
    Latin Extended-A).  Below U+0100 they are those of [QStr].  In Latin
    Extended-A no character is white space, each capital lowercases and folds
    to the small letter beside it (U+0178 to U+00FF), U+0130 lowercases to
    U+0069 U+0307 (special casing) and folds to itself (it has no simple
    folding), and U+017F (long s) lowercases to itself but folds to U+0073.
    Code points above U+017F are not covered: they are mapped to themselves
    and taken as non-space. *)
Definition latin1 (n : Z) : option ascii :=
  if (0 <=? n)%Z && (n <=? 255)%Z then Some (ascii_of_nat (Z.to_nat n)) else None.

Definition extALower (n : Z) : Z :=
  let within a b := ((a <=? n) && (n <=? b))%Z in
  if (within 256 303 || within 306 311 || within 330 375)%Z && Z.even n then (n + 1)%Z
  else if (within 313 328 || within 377 382)%Z && Z.odd n then (n + 1)%Z
  else if Z.eqb n 376 then 255%Z
  else n.

Definition qtTable : CharTable := {|
  isSpaceC := fun n => match latin1 n with Some c => QStr.isSpace c | None => false end;
  lowerC := fun n => match latin1 n with
                     | Some c => [ofChar (QStr.toLowerChar c)]
                     | None => if Z.eqb n 304 then [105; 775]%Z else [extALower n]
                     end;
  foldC := fun n => match latin1 n with
                    | Some c => QStr.foldCase c
                    | None => if Z.eqb n 383 then 115%Z
                              else if Z.eqb n 304 then 304%Z else extALower n
                    end
|}.

End UStr.

(** ** CommandManager: queries and the suggestion front end *)

Module Queries.
Import CM.

(** [CommandManager::getAllCommands]: [commands.keys()], in QMap order. *)
Definition getAllCommands : list string := map fst commands.

(** [CommandManager::getValidCommands]. *)
Definition getValidCommands (s : Engine.Sys) : list string := Engine.availableCommands s.

(** [CommandManager::isCommandValid]: a direct key lookup, then the parser. *)
Definition isCommandValid (command : string) : bool :=
  if containsCommand command then true
  else match parseCommandWithArgs command with
       | Some (baseCommand, _) => containsCommand baseCommand
       | None => false
       end.



(** What [getSuggestions] hands out: the caller's callback, the
    [suggestionsAvailable] signal, and the POST of the fuzzy-search request. *)
Inductive SuggestEvent : Type :=
| SuggestionsCallback (l : list string)
| SuggestionsAvailable (query : string) (l : list string)
| SearchPost (url : string) (data : Json.object).

(** [CommandManager::getSuggestions]; [serverReady] is [server->isReady()].
    [makeRequest] refuses unless the status is Connected, which is what
    [isReady] tests, so under [serverReady] the request is posted. *)
Definition getSuggestions (serverReady : bool) (query : string) : list SuggestEvent :=
  let suggestions := Registry.getContextualSuggestions query in
  let trimmedQuery := QStr.trimmed query in
  let parts := QStr.splitSkip trimmedQuery in
  [SuggestionsCallback suggestions; SuggestionsAvailable query suggestions] ++
  (if serverReady && (List.length parts =? 1)%nat && negb (QStr.isEmpty trimmedQuery) then
     let requestData := Json.insert "query" (Json.Str query) [] in
     let choices := map Json.Str Registry.getAllCommands in
     let requestData := Json.insert "choices" (Json.Array choices) requestData in
     [SearchPost (Engine.SERVER_BASE_URL ++ "/api/search") requestData]
   else [])%list.


End Queries.

(** ** Specification-side definitions *)

Module SpecSide.

(** The structured arguments the percentage grammar promises for a target
    [p]: ratio = p/100, minRatio = max(0.05, 0.9*ratio), maxRatio = 1.1*ratio,
    evaluated in double precision. *)
Definition fmax (a b : float) : float := if PrimFloat.leb a b then b else a.

Definition summariseArgs (p : Z) : Json.object :=
  let ratio := (CM.doubleOfInt p / 100.0)%float in
  [("ratio", Json.Double ratio);
   ("min_ratio", Json.Double (fmax 0.05 (0.9 * ratio)%float));
   ("max_ratio", Json.Double (1.1 * ratio)%float)].

(** Prefix suggestion rule for one token: registry names whose lowercase
    form starts with the lowercase token, in registry order, at most 3. *)
Definition prefixSuggestions (token : string) : list string :=
  firstn 3 (filter (fun cmd => QStr.startsWith (QStr.toLower cmd) (QStr.toLower token))
              Registry.getAllCommands).

End SpecSide.

Module SpecSideU.
(** The prefix rule of [SpecSide.prefixSuggestions] over code points: the
    registry names whose lowercase form starts with the token's lowercase
    form, in registry order, at most 3. *)
Definition prefixSuggestions (t : UStr.CharTable) (token : list Z) : list (list Z) :=
  firstn 3 (filter (fun cmd => UStr.startsWith (UStr.toLower t cmd) (UStr.toLower t token))
              (map UStr.ofString Registry.getAllCommands)).
End SpecSideU.

(** ** Checks on concrete inputs *)

Example parse_summarise_50 :
  CM.parseCommandWithArgs "summarise 50" = Some ("summarise", SpecSide.summariseArgs 50).
Proof. vm_compute. reflexivity. Qed.

Example parse_summarise_150 : CM.parseCommandWithArgs "summarise 150" = None.
Proof. vm_compute. reflexivity. Qed.

Example parse_tone : CM.parseCommandWithArgs "Tone  x" = Some ("tone", []).
Proof. vm_compute. reflexivity. Qed.

Example suggest_re : Registry.getContextualSuggestions " re" = ["rephrase"; "rewrite"].
Proof. vm_compute. reflexivity. Qed.

Example suggest_tone_fo : Registry.getContextualSuggestions "tone fo" = ["tone formal"].
Proof. vm_compute. reflexivity. Qed.

Example toInt_samples :
  map QStr.toInt ["+5"; "05"; "-3"; "x"; "3000000000"; ""] =
  [Some 5%Z; Some 5%Z; Some (-3)%Z; None; None; None].
Proof. vm_compute. reflexivity. Qed.

(** ** Lemmas on splitting *)

Lemma splitKeep_summarise_space (s : string) :
  QStr.splitKeep ("summarise" ++ String " " s) = "summarise" :: QStr.splitKeep s.
Proof. reflexivity. Qed.

Lemma splitKeep_summarize_space (s : string) :
  QStr.splitKeep ("summarize" ++ String " " s) = "summarize" :: QStr.splitKeep s.
Proof. reflexivity. Qed.

Lemma splitSkip_summarise (s : string) :
  QStr.splitSkip ("summarise " ++ s) = "summarise" :: QStr.splitSkip s.
Proof.
  unfold QStr.splitSkip. change ("summarise " ++ s) with ("summarise" ++ String " " s).
  rewrite splitKeep_summarise_space. reflexivity.
Qed.

(** ** Parser lemmas *)

Module ParseFacts.
Import CM.

(** The arguments [parseCommandWithArgs] writes for an accepted percentage. *)
Definition codeArgs (percentage : Z) : Json.object :=
  let ratio := (doubleOfInt percentage / 100.0)%float in
  let args := Json.insert "ratio" (Json.Double ratio) [] in
  let args := Json.insert "min_ratio" (Json.Double (qMax 0.05 (ratio * 0.9)%float)) args in
  Json.insert "max_ratio" (Json.Double (ratio * 1.1)%float) args.

(** Argument lists the percentage grammar rejects: one argument that
    [QString::toInt] does not read or that is out of 1..99, or several. *)
Definition rejectedArgs (args : list string) : Prop :=
  match args with
  | [] => False
  | [a] => match QStr.toInt a with
           | None => True
           | Some p => (p <= 0)%Z \/ (100 <= p)%Z
           end
  | _ :: _ :: _ => True
  end.

Lemma parse_summarise_tokens (s : string) :
  parseCommandWithArgs ("summarise " ++ s) =
  match QStr.splitSkip s with
  | [] => Some ("summarise", Json.insert "max_ratio" (Json.Double 0.30)
                  (Json.insert "min_ratio" (Json.Double 0.20)
                     (Json.insert "ratio" (Json.Double 0.25) [])))
  | [a] => match QStr.toInt a with
           | None => None
           | Some p => if (p <=? 0)%Z || (100 <=? p)%Z then None
                       else Some ("summarise", codeArgs p)
           end
  | _ :: _ :: _ => None
  end.
Proof.
  unfold parseCommandWithArgs. rewrite splitSkip_summarise. reflexivity.
Qed.

Lemma parse_summarise_rejected (s : string) :
  rejectedArgs (QStr.splitSkip s) -> parseCommandWithArgs ("summarise " ++ s) = None.
Proof.
  rewrite parse_summarise_tokens. unfold rejectedArgs.
  destruct (QStr.splitSkip s) as [|a [|b r]]; try tauto.
  destruct (QStr.toInt a) as [p|]; [|reflexivity].
  intros [H|H].
  - apply Z.leb_le in H. rewrite H. reflexivity.
  - apply Z.leb_le in H. rewrite H, orb_true_r. reflexivity.
Qed.

(** Every percentage 1..99, written in decimal, is accepted with the
    arguments of the specification. *)
Lemma parse_summarise_percentages (n : nat) :
  (n < 99)%nat ->
  parseCommandWithArgs ("summarise " ++ QStr.ofInt (Z.of_nat n + 1)) =
  Some ("summarise", SpecSide.summariseArgs (Z.of_nat n + 1)).
Proof.
  intro H.
  do 99 (destruct n as [|n]; [vm_compute; reflexivity|]).
  lia.
Qed.

End ParseFacts.

(** ** Dispatcher lemmas *)

Module DispatchFacts.
Import CM Engine.

Lemma executeCommand_busy st command inputText now :
  executionState st = Executing ->
  executeCommand command inputText now st =
  (tt, st,
   [Callback ExecutionError "Cannot execute command: another command is already running";
    CommandExecuted command ExecutionError
      "Cannot execute command: another command is already running"]).
Proof.
  intro H. unfold executeCommand, bind, get. cbn. rewrite H. reflexivity.
Qed.

Lemma executeCommand_unparsed st command inputText now :
  executionState st = Idle ->
  parseCommandWithArgs command = None ->
  executeCommand command inputText now st =
  (tt, setExecutionState Idle st,
   [ExecutionStateChanged Executing; ExecutionStateChanged Idle;
    Callback InvalidCommand ("Unknown command: " ++ command);
    CommandExecuted command InvalidCommand ("Unknown command: " ++ command)]).
Proof.
  intros H Hp. destruct st as [cs cf av ex fl]. cbn in H. subst ex.
  unfold executeCommand, bind, get. cbn. rewrite Hp. reflexivity.
Qed.

End DispatchFacts.

(** A number formatter for runs that print no summary statistics. *)
Definition noNumberFormat : float -> nat -> string := fun _ _ => "".

(** ** Claims on the parser and the suggestion engine *)

(** C1 (as the code does it): every percentage p in 1..99 typed after
    "summarise" is accepted with ratio = p/100, minRatio = max(0.05, 0.9*ratio)
    and maxRatio = 1.1*ratio; an argument that is not an integer, an integer
    outside 1..99, or more than one argument makes the parser fail (nothing is
    clamped), and [executeCommand] then reports [InvalidCommand]
    ("Unknown command: ..."), not [ValidationError]. *)
Theorem summarise_percentage_grammar :
  (forall p : Z, (1 <= p <= 99)%Z ->
     CM.parseCommandWithArgs ("summarise " ++ QStr.ofInt p) =
     Some ("summarise", SpecSide.summariseArgs p)) /\
  (forall s : string, ParseFacts.rejectedArgs (QStr.splitSkip s) ->
     CM.parseCommandWithArgs ("summarise " ++ s) = None /\
     forall st inputText now, Engine.executionState st = CM.Idle ->
       Engine.eventsOf (Engine.executeCommand ("summarise " ++ s) inputText now st) =
       [Engine.ExecutionStateChanged CM.Executing; Engine.ExecutionStateChanged CM.Idle;
        Engine.Callback CM.InvalidCommand ("Unknown command: summarise " ++ s);
        Engine.CommandExecuted ("summarise " ++ s) CM.InvalidCommand
          ("Unknown command: summarise " ++ s)]).
Proof.
  split.
  - intros p Hp.
    replace p with (Z.of_nat (Z.to_nat (p - 1)) + 1)%Z by lia.
    apply ParseFacts.parse_summarise_percentages. lia.
  - intros s Hs.
    assert (Hn : CM.parseCommandWithArgs ("summarise " ++ s) = None)
      by (apply ParseFacts.parse_summarise_rejected; exact Hs).
    split; [exact Hn|].
    intros st inputText now Hi.
    rewrite (DispatchFacts.executeCommand_unparsed st _ inputText now Hi Hn).
    reflexivity.
Qed.

Lemma summarise_percentage_grammar_witness :
  ((1 <= 50 <= 99)%Z /\
   CM.parseCommandWithArgs ("summarise " ++ QStr.ofInt 50) =
   Some ("summarise", SpecSide.summariseArgs 50)) /\
  (ParseFacts.rejectedArgs (QStr.splitSkip "150") /\
   CM.parseCommandWithArgs ("summarise " ++ "150") = None).
Proof.
  split.
  - split; [lia|]. apply (proj1 summarise_percentage_grammar). lia.
  - assert (H : ParseFacts.rejectedArgs (QStr.splitSkip "150"))
      by (vm_compute; right; discriminate).
    split; [exact H|].
    exact (proj1 (proj2 summarise_percentage_grammar "150" H)).
Defined.

(** C1 counterexample: "summarise 150" is rejected by the parser, and the
    dispatcher reports it as [InvalidCommand], never as [ValidationError]. *)
Lemma summarise_out_of_range_not_validation_error :
  let r := Engine.executeCommand "summarise 150" "Some text." 0 Engine.initial in
  In (Engine.Callback CM.InvalidCommand "Unknown command: summarise 150") (Engine.eventsOf r) /\
  ~ (exists msg, In (Engine.Callback CM.ValidationError msg) (Engine.eventsOf r)).
Proof.
  vm_compute. split.
  - right. right. left. reflexivity.
  - intros [msg H]. repeat (destruct H as [H|H]; [discriminate H|]). exact H.
Qed.

(** C6: "summarise" with no argument is parsed with the default target
    ratio = 0.25 and the band min_ratio = 0.20, max_ratio = 0.30. *)
Theorem summarise_default_arguments (command part0 : string) :
  QStr.splitSkip command = [part0] ->
  QStr.toLower part0 = "summarise" ->
  CM.parseCommandWithArgs command =
  Some ("summarise", [("ratio", Json.Double 0.25); ("min_ratio", Json.Double 0.20);
                      ("max_ratio", Json.Double 0.30)]).
Proof.
  intros Hs Hl. unfold CM.parseCommandWithArgs. rewrite Hs. cbv zeta. rewrite Hl.
  reflexivity.
Qed.

Lemma summarise_default_arguments_witness :
  QStr.splitSkip "  Summarise " = ["Summarise"] /\ QStr.toLower "Summarise" = "summarise" /\
  CM.parseCommandWithArgs "  Summarise " =
  Some ("summarise", [("ratio", Json.Double 0.25); ("min_ratio", Json.Double 0.20);
                      ("max_ratio", Json.Double 0.30)]).
Proof.
  assert (H1 : QStr.splitSkip "  Summarise " = ["Summarise"]) by reflexivity.
  assert (H2 : QStr.toLower "Summarise" = "summarise") by reflexivity.
  split; [exact H1|]. split; [exact H2|].
  exact (summarise_default_arguments "  Summarise " "Summarise" H1 H2).
Defined.

(** C8: for empty or white-space-only input the suggestions are exactly the
    starter commands summarise, tone, highlight, which is not the full
    registry. *)
Theorem empty_input_starter_suggestions (input : string) :
  QStr.trimmed input = "" ->
  Registry.getContextualSuggestions input = ["summarise"; "tone"; "highlight"] /\
  Registry.getContextualSuggestions input <> Registry.getAllCommands.
Proof.
  intro H. unfold Registry.getContextualSuggestions. rewrite H. cbn.
  split; [reflexivity | discriminate].
Qed.

Lemma empty_input_starter_suggestions_witness :
  QStr.trimmed "   " = "" /\
  Registry.getContextualSuggestions "   " = ["summarise"; "tone"; "highlight"].
Proof.
  assert (H : QStr.trimmed "   " = "") by reflexivity.
  split; [exact H|]. exact (proj1 (empty_input_starter_suggestions "   " H)).
Defined.

Lemma splitSkip_summarize (s : string) :
  QStr.splitSkip ("summarize " ++ s) = "summarize" :: QStr.splitSkip s.
Proof.
  unfold QStr.splitSkip. change ("summarize " ++ s) with ("summarize" ++ String " " s).
  rewrite splitKeep_summarize_space. reflexivity.
Qed.

(** C9: "summarize" is parsed exactly like "summarise", whatever follows it,
    with base command "summarise"; neither the dispatcher's table nor the
    registry lists "summarize". *)
Theorem summarize_alias (rest : string) :
  (rest = "" \/ exists r, rest = String " " r) ->
  CM.parseCommandWithArgs ("summarize" ++ rest) = CM.parseCommandWithArgs ("summarise" ++ rest) /\
  (forall base args, CM.parseCommandWithArgs ("summarize" ++ rest) = Some (base, args) ->
     base = "summarise") /\
  CM.containsCommand "summarize" = false /\
  ~ In "summarize" Registry.getAllCommands.
Proof.
  intro Hr.
  assert (Heq : CM.parseCommandWithArgs ("summarize" ++ rest) =
                CM.parseCommandWithArgs ("summarise" ++ rest)).
  { destruct Hr as [->|[r ->]]; [reflexivity|].
    change ("summarize" ++ String " " r) with ("summarize " ++ r).
    change ("summarise" ++ String " " r) with ("summarise " ++ r).
    unfold CM.parseCommandWithArgs.
    rewrite splitSkip_summarize, splitSkip_summarise. reflexivity. }
  split; [exact Heq|]. split.
  - intros base args H. rewrite Heq in H.
    destruct Hr as [->|[r ->]].
    + vm_compute in H. congruence.
    + change ("summarise" ++ String " " r) with ("summarise " ++ r) in H.
      rewrite ParseFacts.parse_summarise_tokens in H.
      destruct (QStr.splitSkip r) as [|a [|b l]]; [congruence| |discriminate].
      destruct (QStr.toInt a) as [p|]; [|discriminate].
      destruct ((p <=? 0)%Z || (100 <=? p)%Z); congruence.
  - split; [reflexivity|]. cbn. intuition discriminate.
Qed.

Lemma summarize_alias_witness :
  (" 40" = "" \/ exists r, " 40" = String " " r) /\
  CM.parseCommandWithArgs ("summarize" ++ " 40") = CM.parseCommandWithArgs ("summarise" ++ " 40").
Proof.
  assert (H : " 40" = "" \/ exists r, " 40" = String " " r) by (right; exists "40"; reflexivity).
  split; [exact H|]. exact (proj1 (summarize_alias " 40" H)).
Defined.

(** ** Suggestion lemmas *)

Module SuggestFacts.

Definition plainChar (c : ascii) : bool :=
  (97 <=? QStr.code c)%nat && (QStr.code c <=? 122)%nat.

Definition plain (s : string) : bool := forallb plainChar (list_ascii_of_string s).

Definition noSpaceChar (s : string) : bool :=
  forallb (fun c => negb (Ascii.eqb c " ")) (list_ascii_of_string s).

Lemma ascii_of_code (c : ascii) : ascii_of_nat (QStr.code c) = c.
Proof. apply ascii_nat_embedding. Qed.

Lemma fold_lower_check :
  forallb (fun n => forallb (fun m =>
     Bool.eqb (Z.eqb (QStr.foldCase (QStr.toLowerChar (ascii_of_nat n)))
                     (QStr.foldCase (ascii_of_nat m)))
              (Ascii.eqb (QStr.toLowerChar (ascii_of_nat n)) (ascii_of_nat m)))
     (seq 97 26)) (seq 0 256) = true.
Proof. vm_compute. reflexivity. Qed.

(** Against a lowercase ASCII letter, comparing case folds of a lowercased
    character is comparing the characters. *)
Lemma fold_lower_plain (x b : ascii) :
  plainChar b = true ->
  Z.eqb (QStr.foldCase (QStr.toLowerChar x)) (QStr.foldCase b) =
  Ascii.eqb (QStr.toLowerChar x) b.
Proof.
  intro Hb. unfold plainChar in Hb. apply andb_true_iff in Hb as [H1 H2].
  apply Nat.leb_le in H1. apply Nat.leb_le in H2.
  pose proof fold_lower_check as H. rewrite forallb_forall in H.
  specialize (H (QStr.code x)).
  rewrite forallb_forall in H.
  assert (Hx : In (QStr.code x) (seq 0 256)).
  { apply in_seq. pose proof (nat_ascii_bounded x). unfold QStr.code. lia. }
  specialize (H Hx (QStr.code b)).
  assert (Hb : In (QStr.code b) (seq 97 26)) by (apply in_seq; lia).
  specialize (H Hb). rewrite !ascii_of_code in H.
  apply Bool.eqb_prop in H. exact H.
Qed.

Lemma startsWithCI_lower_plain (t s : string) :
  plain s = true ->
  QStr.startsWithCI s (QStr.toLower t) = QStr.startsWith s (QStr.toLower t).
Proof.
  revert s. induction t as [|x t IH]; intros s Hs; [destruct s; reflexivity|].
  destruct s as [|b s]; [reflexivity|].
  cbn [QStr.toLower QStr.startsWithCI QStr.startsWith].
  unfold plain in Hs. cbn in Hs. apply andb_true_iff in Hs as [Hb Hs].
  rewrite (fold_lower_plain x b Hb), (IH s Hs). reflexivity.
Qed.

Lemma splitKeep_no_space (s : string) :
  noSpaceChar s = true -> QStr.splitKeep s = [s].
Proof.
  induction s as [|c s IH]; intro H; [reflexivity|].
  unfold noSpaceChar in H. cbn in H. apply andb_true_iff in H as [Hc H].
  cbn. apply negb_true_iff in Hc. rewrite Hc. rewrite (IH H). reflexivity.
Qed.

Lemma registry_plain : forallb plain Registry.getAllCommands = true.
Proof. reflexivity. Qed.

Lemma registry_lower :
  forallb (fun cmd => String.eqb (QStr.toLower cmd) cmd) Registry.getAllCommands = true.
Proof. reflexivity. Qed.

Lemma cap_three (l : list string) :
  (if (3 <? List.length l)%nat then firstn 3 l else l) = firstn 3 l.
Proof.
  destruct (Nat.ltb_spec 3 (List.length l)); [reflexivity|].
  symmetry. apply firstn_all2. exact H.
Qed.

End SuggestFacts.

(** For a Latin-1 string that is a single token once surrounding white
    space is trimmed, the suggestions are the registry's names whose
    lowercase form starts with the token's lowercase form, in registry order,
    at most 3. *)
Lemma single_token_prefix_latin1 (input : string) :
  QStr.trimmed input <> "" ->
  SuggestFacts.noSpaceChar (QStr.trimmed input) = true ->
  Registry.getContextualSuggestions input = SpecSide.prefixSuggestions (QStr.trimmed input).
Proof.
  intros Hne Hns. unfold Registry.getContextualSuggestions.
  assert (He : QStr.isEmpty (QStr.trimmed input) = false).
  { unfold QStr.isEmpty. apply String.eqb_neq. exact Hne. }
  rewrite He. cbv zeta. rewrite (SuggestFacts.splitKeep_no_space _ Hns).
  rewrite SuggestFacts.cap_three. unfold SpecSide.prefixSuggestions. f_equal.
  apply filter_ext_in. intros cmd Hin.
  pose proof SuggestFacts.registry_plain as Hp. rewrite forallb_forall in Hp.
  pose proof SuggestFacts.registry_lower as Hl. rewrite forallb_forall in Hl.
  specialize (Hl cmd Hin). apply String.eqb_eq in Hl. rewrite Hl.
  apply SuggestFacts.startsWithCI_lower_plain. exact (Hp cmd Hin).
Qed.


Module UStrFacts.
Import UStr.

Lemma ofChar_lt (c : ascii) : (0 <= ofChar c <= 255)%Z.
Proof. unfold ofChar. pose proof (nat_ascii_bounded c). lia. Qed.

Lemma latin1_ofChar (c : ascii) : latin1 (ofChar c) = Some c.
Proof.
  unfold latin1. pose proof (ofChar_lt c) as [H1 H2].
  apply Z.leb_le in H1. apply Z.leb_le in H2. rewrite H1, H2. cbn.
  unfold ofChar. rewrite Nat2Z.id, ascii_nat_embedding. reflexivity.
Qed.

Lemma ofChar_eqb (a b : ascii) : Z.eqb (ofChar a) (ofChar b) = Ascii.eqb a b.
Proof.
  unfold ofChar. destruct (Ascii.eqb_spec a b) as [->|Hn]; [apply Z.eqb_refl|].
  apply Z.eqb_neq. intro H. apply Hn.
  apply Nat2Z.inj in H. rewrite <- (ascii_nat_embedding a), <- (ascii_nat_embedding b), H.
  reflexivity.
Qed.

Lemma isSpace_ofChar c : isSpaceC qtTable (ofChar c) = QStr.isSpace c.
Proof. cbn [isSpaceC qtTable]. rewrite latin1_ofChar. reflexivity. Qed.

Lemma lower_ofChar c : lowerC qtTable (ofChar c) = [ofChar (QStr.toLowerChar c)].
Proof. cbn [lowerC qtTable]. rewrite latin1_ofChar. reflexivity. Qed.

Lemma fold_ofChar c : foldC qtTable (ofChar c) = QStr.foldCase c.
Proof. cbn [foldC qtTable]. rewrite latin1_ofChar. reflexivity. Qed.

Lemma ofString_cons c s : ofString (String c s) = ofChar c :: ofString s.
Proof. reflexivity. Qed.

Lemma ofString_app a b : ofString (a ++ b) = (ofString a ++ ofString b)%list.
Proof. induction a as [|c a IH]; [reflexivity|]. cbn [String.append]. rewrite ofString_cons, IH. reflexivity. Qed.

Lemma ofString_list l : ofString (string_of_list_ascii l) = map ofChar l.
Proof. unfold ofString. rewrite list_ascii_of_string_of_list_ascii. reflexivity. Qed.

Lemma dropSpaces_ofChar l :
  dropSpaces qtTable (map ofChar l) = map ofChar (QStr.dropSpaces l).
Proof.
  induction l as [|c l IH]; [reflexivity|]. cbn [map dropSpaces QStr.dropSpaces]. rewrite isSpace_ofChar.
  destruct (QStr.isSpace c); [exact IH|reflexivity].
Qed.

Lemma trimmed_ofString s : trimmed qtTable (ofString s) = ofString (QStr.trimmed s).
Proof.
  unfold trimmed, QStr.trimmed. rewrite ofString_list. unfold ofString.
  rewrite dropSpaces_ofChar, <- map_rev, dropSpaces_ofChar, map_rev. reflexivity.
Qed.

Lemma isEmpty_ofString s : isEmpty (ofString s) = QStr.isEmpty s.
Proof. destruct s; reflexivity. Qed.

Lemma splitKeep_ofString s : splitKeep (ofString s) = map ofString (QStr.splitKeep s).
Proof.
  induction s as [|c s IH]; [reflexivity|].
  rewrite ofString_cons. cbn [splitKeep QStr.splitKeep].
  change 32%Z with (ofChar " "). rewrite ofChar_eqb, IH.
  destruct (Ascii.eqb c " "); [reflexivity|].
  destruct (QStr.splitKeep s); reflexivity.
Qed.

Lemma toLower_ofString s : toLower qtTable (ofString s) = ofString (QStr.toLower s).
Proof.
  induction s as [|c s IH]; [reflexivity|].
  rewrite ofString_cons. cbn [toLower flat_map]. rewrite lower_ofChar.
  unfold toLower in IH. rewrite IH. reflexivity.
Qed.

Lemma startsWith_ofString a b :
  startsWith (ofString a) (ofString b) = QStr.startsWith a b.
Proof.
  revert a. induction b as [|c b IH]; intros a; [destruct a; reflexivity|].
  destruct a as [|d a]; [reflexivity|].
  rewrite !ofString_cons. cbn [startsWith QStr.startsWith]. rewrite ofChar_eqb, IH. reflexivity.
Qed.

Lemma startsWithCI_ofString a b :
  startsWithCI qtTable (ofString a) (ofString b) = QStr.startsWithCI a b.
Proof.
  revert a. induction b as [|c b IH]; intros a; [destruct a; reflexivity|].
  destruct a as [|d a]; [reflexivity|].
  rewrite !ofString_cons. cbn [startsWithCI QStr.startsWithCI]. rewrite !fold_ofChar, IH. reflexivity.
Qed.

Lemma eqb_ofString a b : eqb (ofString a) (ofString b) = String.eqb a b.
Proof.
  revert b. induction a as [|c a IH]; intros b; destruct b as [|d b]; try reflexivity.
  rewrite !ofString_cons. cbn [eqb]. rewrite ofChar_eqb, IH.
  destruct (Ascii.eqb_spec c d) as [->|Hn]; destruct (String.eqb_spec a b) as [->|Hm];
    symmetry; cbn [andb].
  - apply String.eqb_refl.
  - apply String.eqb_neq. congruence.
  - apply String.eqb_neq. congruence.
  - apply String.eqb_neq. congruence.
Qed.

Lemma optionSuggestions_ofString n a ci options :
  optionSuggestions qtTable (ofString n) (ofString a) ci options =
  map ofString (Registry.optionSuggestions n a ci options).
Proof.
  unfold optionSuggestions, Registry.optionSuggestions.
  rewrite filter_map_swap, !map_map.
  erewrite filter_ext
    by (intro o; rewrite isEmpty_ofString, startsWith_ofString, startsWithCI_ofString;
        reflexivity).
  apply map_ext. intros o. rewrite !ofString_app. reflexivity.
Qed.

Lemma existsb_eqb_ofString (n : string) (l : list string) :
  existsb (eqb (ofString n)) (map ofString l) = existsb (String.eqb n) l.
Proof.
  induction l as [|x l IH]; [reflexivity|]. cbn [map existsb]. rewrite IH, eqb_ofString.
  reflexivity.
Qed.

Lemma getContextualSuggestions_ofString s :
  getContextualSuggestions qtTable (ofString s) =
  map ofString (Registry.getContextualSuggestions s).
Proof.
  unfold getContextualSuggestions, Registry.getContextualSuggestions.
  rewrite trimmed_ofString, isEmpty_ofString.
  destruct (QStr.isEmpty (QStr.trimmed s)); [reflexivity|].
  cbv zeta. rewrite splitKeep_ofString.
  destruct (QStr.splitKeep (QStr.trimmed s)) as [|p0 [|p1 rest]]; [reflexivity| |].
  - cbn [map]. rewrite toLower_ofString, filter_map_swap.
    erewrite filter_ext; [|intros c; apply startsWithCI_ofString].
    rewrite length_map. destruct (3 <? _)%nat; [apply firstn_map|reflexivity].
  - cbn [map]. rewrite toLower_ofString, !eqb_ofString.
    destruct (String.eqb _ "summarise"); [apply optionSuggestions_ofString|].
    destruct (String.eqb _ "tone"); [apply optionSuggestions_ofString|].
    destruct (String.eqb _ "font"); [apply optionSuggestions_ofString|].
    destruct (String.eqb _ "highlight"); [apply optionSuggestions_ofString|].
    rewrite existsb_eqb_ofString.
    destruct (existsb _ _); reflexivity.
Qed.


Lemma ofString_nil s : ofString s = [] -> s = "".
Proof. destruct s; [reflexivity|discriminate]. Qed.

Lemma noSpace_ofString s : ~ In 32%Z (ofString s) -> SuggestFacts.noSpaceChar s = true.
Proof.
  intro H. unfold SuggestFacts.noSpaceChar. apply forallb_forall. intros c Hc.
  apply negb_true_iff. rewrite <- ofChar_eqb. apply Z.eqb_neq. intro He.
  apply H. change 32%Z with (ofChar " "). unfold ofString. rewrite <- He. apply in_map. exact Hc.
Qed.

Lemma prefixSuggestions_ofString s :
  SpecSideU.prefixSuggestions qtTable (ofString s) =
  map ofString (SpecSide.prefixSuggestions s).
Proof.
  unfold SpecSideU.prefixSuggestions, SpecSide.prefixSuggestions.
  rewrite filter_map_swap, firstn_map. f_equal. f_equal. apply filter_ext. intros c.
  rewrite !toLower_ofString. apply startsWith_ofString.
Qed.

End UStrFacts.

(** C7 (amended): for input whose characters are all in U+0000..U+00FF
    and whose trimmed form is one token without a space, the suggestions are
    the registry's names whose lowercase form starts with the token's
    lowercase form, in registry order, at most 3. *)
Theorem single_token_prefix_suggestions (input : string) :
  UStr.trimmed UStr.qtTable (UStr.ofString input) <> [] ->
  ~ In 32%Z (UStr.trimmed UStr.qtTable (UStr.ofString input)) ->
  UStr.getContextualSuggestions UStr.qtTable (UStr.ofString input) =
  SpecSideU.prefixSuggestions UStr.qtTable (UStr.trimmed UStr.qtTable (UStr.ofString input)).
Proof.
  rewrite UStrFacts.trimmed_ofString. intros Hne Hns.
  rewrite UStrFacts.getContextualSuggestions_ofString, UStrFacts.prefixSuggestions_ofString.
  f_equal. apply single_token_prefix_latin1.
  - intro H. apply Hne. rewrite H. reflexivity.
  - apply UStrFacts.noSpace_ofString. exact Hns.
Qed.

Lemma single_token_prefix_suggestions_witness :
  UStr.trimmed UStr.qtTable (UStr.ofString " RE") <> [] /\
  ~ In 32%Z (UStr.trimmed UStr.qtTable (UStr.ofString " RE")) /\
  UStr.getContextualSuggestions UStr.qtTable (UStr.ofString " RE") =
  map UStr.ofString ["rephrase"; "rewrite"].
Proof.
  assert (H1 : UStr.trimmed UStr.qtTable (UStr.ofString " RE") <> []) by (vm_compute; discriminate).
  assert (H2 : ~ In 32%Z (UStr.trimmed UStr.qtTable (UStr.ofString " RE"))).
  { vm_compute. intros [H|[H|H]]; [discriminate H|discriminate H|exact H]. }
  split; [exact H1|]. split; [exact H2|].
  rewrite (single_token_prefix_suggestions " RE" H1 H2). vm_compute. reflexivity.
Defined.

(** C7 counterexample: for the one-character input U+017F (long s, which
    lowercases to itself but folds to "s") the code suggests "summarise",
    while no registry name's lowercase form starts with the lowercase token. *)
Lemma long_s_suggests_summarise :
  UStr.getContextualSuggestions UStr.qtTable [383%Z] = [UStr.ofString "summarise"] /\
  SpecSideU.prefixSuggestions UStr.qtTable (UStr.trimmed UStr.qtTable [383%Z]) = [].
Proof. split; vm_compute; reflexivity. Qed.

(** ** The state machine: what each operation does to the state *)

Module EngineFacts.
Import CM Engine.

(** The invariant of reachable states: the dispatcher's list follows the
    status, the gate is closed exactly while a command request is awaited,
    and Error only holds with the failure counter at its ceiling. *)
Record Inv (s : Sys) : Prop := {
  inv_available : availableCommands s = availableFor (isReady s);
  inv_gate : match executionState s, inflight s with
             | Idle, None | Executing, Some _ => True
             | _, _ => False
             end;
  inv_error : currentStatus s = Error -> (MAX_RETRY_ATTEMPTS <= consecutiveFailures s)%Z
}.

Ltac monad := unfold bind, ret, get, modify, emit in *; cbn in *.

(** [setStatus] as a state function. *)
Definition setStatusState (v : ServerStatus) (st : Sys) : Sys :=
  if statusEqb (currentStatus st) v then st
  else let s1 := setAvailable (availableFor (statusEqb v Connected)) (setCurrentStatus v st) in
       if statusEqb v Connected then setFailures 0 s1 else s1.

Definition setStatusEvents (v : ServerStatus) (st : Sys) : list Event :=
  if statusEqb (currentStatus st) v then []
  else StatusChanged v :: (if statusEqb v Connected then [ServerReady] else []).

Lemma setStatus_spec v st :
  setStatus v st = (tt, setStatusState v st, setStatusEvents v st).
Proof.
  destruct st as [cs cf av ex fl]. unfold setStatus, setStatusState, setStatusEvents,
    handleServerStatusChange, isReady. monad.
  destruct (statusEqb cs v); [reflexivity|].
  destruct v; reflexivity.
Qed.

Lemma statusEqb_true a b : statusEqb a b = true -> a = b.
Proof. destruct a, b; cbn; congruence. Qed.

Lemma statusEqb_refl a : statusEqb a a = true.
Proof. destruct a; reflexivity. Qed.

Lemma setStatus_inv v st :
  Inv st -> (v = Error -> (MAX_RETRY_ATTEMPTS <= consecutiveFailures st)%Z) ->
  Inv (setStatusState v st).
Proof.
  intros [Ha Hg He] Hv. unfold setStatusState.
  destruct (statusEqb (currentStatus st) v) eqn:E; [constructor; assumption|].
  destruct st as [cs cf av ex fl]; cbn in *.
  destruct v; constructor; cbn; try assumption; try discriminate; auto.
Qed.

(** How many times the gate is reopened in a stretch of the log. *)
Fixpoint idleCount (evs : list Event) : nat :=
  match evs with
  | [] => 0
  | ExecutionStateChanged Idle :: r => S (idleCount r)
  | _ :: r => idleCount r
  end.

Definition isPost (e : Event) : bool := match e with Post _ _ => true | _ => false end.

Lemma idleCount_app a b : idleCount (a ++ b) = (idleCount a + idleCount b)%nat.
Proof.
  induction a as [|e a IH]; [reflexivity|].
  destruct e as [| | | [|] | | | |]; cbn; rewrite ?IH; reflexivity.
Qed.

Lemma commandOnError_spec h err st :
  commandOnError h err st =
  (tt, setExecutionState Idle st,
   [ExecutionStateChanged Idle; Callback ServerError ("Server command failed: " ++ err);
    CommandExecuted (pendingCommand h) ServerError ("Server command failed: " ++ err)]).
Proof. reflexivity. Qed.

Lemma commandOnSuccess_spec nf h resp st :
  commandOnSuccess nf h resp st =
  (tt, setExecutionState Idle st,
   [ExecutionStateChanged Idle; Callback Success (formatServerResponse nf (pendingBase h) resp);
    CommandExecuted (pendingCommand h) Success (formatServerResponse nf (pendingBase h) resp)]).
Proof. reflexivity. Qed.

Lemma makeRequest_spec ep d h st :
  makeRequest ep d h st =
  if statusEqb (currentStatus st) Connected
  then (tt, setInflight (Some h) st, [Post (SERVER_BASE_URL ++ ep) d])
  else commandOnError h "Server not available for requests" st.
Proof.
  unfold makeRequest. monad. destruct (statusEqb (currentStatus st) Connected); reflexivity.
Qed.

Lemma executeLocalCommand_state c t st :
  stateOf (executeLocalCommand c t st) = setExecutionState Idle st /\
  idleCount (eventsOf (executeLocalCommand c t st)) = 1%nat /\
  forallb (fun e => negb (isPost e)) (eventsOf (executeLocalCommand c t st)) = true.
Proof. repeat split. Qed.

Lemma failEarly_spec c r msg st :
  failEarly c r msg st =
  (tt, setExecutionState Idle st,
   [ExecutionStateChanged Idle; Callback r msg; CommandExecuted c r msg]).
Proof. reflexivity. Qed.

(** Once the gate is open, [executeCommand] either finishes at once, back at
    Idle with one callback, or has posted the command's request and waits
    for its reply with the gate closed. *)
Lemma executeCommand_idle_cases st c t now :
  executionState st = Idle ->
  (exists r msg name,
     executeCommand c t now st =
     (tt, setExecutionState Idle st,
      [ExecutionStateChanged Executing; ExecutionStateChanged Idle;
       Callback r msg; CommandExecuted name r msg])) \/
  (exists b a url data,
     parseCommandWithArgs c = Some (b, a) /\
     currentStatus st = Connected /\
     executeCommand c t now st =
     (tt, setInflight (Some (mkPending c b)) (setExecutionState Executing st),
      [ExecutionStateChanged Executing; Post url data])).
Proof.
  intro Hi. unfold executeCommand. unfold bind, ret, get, modify, emit. cbn. rewrite Hi.
  destruct (parseCommandWithArgs c) as [[b a]|] eqn:Hp.
  - destruct (negb (existsb (String.eqb b) (availableCommands (setExecutionState Executing st)))).
    { left. rewrite failEarly_spec. do 3 eexists. reflexivity. }
    destruct (requiresInput (getCommandInfo b) && QStr.isEmpty (QStr.trimmed t)).
    { left. rewrite failEarly_spec. do 3 eexists. reflexivity. }
    destruct (requiresServer (getCommandInfo b)).
    + unfold executeServerCommand. rewrite Hp. rewrite makeRequest_spec.
      cbn [currentStatus setExecutionState].
      destruct (statusEqb (currentStatus st) Connected) eqn:Hc.
      * right. exists b, a. do 2 eexists. split; [reflexivity|].
        split; [apply statusEqb_true; exact Hc|]. reflexivity.
      * left. rewrite commandOnError_spec. do 3 eexists. reflexivity.
    + left. do 3 eexists. reflexivity.
  - left. rewrite failEarly_spec. do 3 eexists. reflexivity.
Qed.

(** [handleHealthCheckResponse] as a state function. *)
Definition probeState (err : option string) (st : Sys) : Sys :=
  match err with
  | None =>
      let s1 := setFailures 0 st in
      if statusEqb (currentStatus st) Connected then s1 else setStatusState Connected s1
  | Some _ =>
      let s1 := setFailures (consecutiveFailures st + 1) st in
      if (MAX_RETRY_ATTEMPTS <=? consecutiveFailures st + 1)%Z
      then setStatusState Error s1 else setStatusState Connecting s1
  end.

Lemma probe_spec err st :
  stateOf (handleHealthCheckResponse err st) = probeState err st.
Proof.
  destruct err as [es|]; unfold handleHealthCheckResponse, probeState;
    unfold bind, ret, get, modify, emit; cbn -[setStatus].
  - destruct (MAX_RETRY_ATTEMPTS <=? consecutiveFailures st + 1)%Z;
      rewrite setStatus_spec; reflexivity.
  - destruct (statusEqb (currentStatus st) Connected); cbn -[setStatus]; [reflexivity|].
    rewrite setStatus_spec. reflexivity.
Qed.

Lemma probe_events_quiet err st :
  idleCount (eventsOf (handleHealthCheckResponse err st)) = 0%nat /\
  forallb (fun e => negb (isPost e)) (eventsOf (handleHealthCheckResponse err st)) = true.
Proof.
  destruct err as [es|]; unfold handleHealthCheckResponse;
    unfold bind, ret, get, modify, emit; cbn -[setStatus].
  - destruct (MAX_RETRY_ATTEMPTS <=? consecutiveFailures st + 1)%Z;
      rewrite setStatus_spec; unfold setStatusEvents;
      destruct (statusEqb _ _); cbn; auto.
  - destruct (statusEqb (currentStatus st) Connected); cbn -[setStatus]; auto.
    rewrite setStatus_spec. unfold setStatusEvents. destruct (statusEqb _ _); cbn; auto.
Qed.

(** The state after a network error on the awaited command request, before
    the error closure runs. *)
Definition netErrorState (st : Sys) : Sys :=
  let s1 := setFailures (consecutiveFailures st + 1) (setInflight None st) in
  if (MAX_RETRY_ATTEMPTS <=? consecutiveFailures st + 1)%Z
     && statusEqb (currentStatus st) Connected
  then setStatusState Error s1 else s1.

Lemma requestFinished_netError nf es st h :
  inflight st = Some h ->
  stateOf (requestFinished nf (ReplyNetworkError es) st) =
  setExecutionState Idle (netErrorState st) /\
  exists evs0,
    eventsOf (requestFinished nf (ReplyNetworkError es) st) =
    (evs0 ++ [ExecutionStateChanged Idle;
              Callback ServerError ("Server command failed: " ++ ("Network error: " ++ es));
              CommandExecuted (pendingCommand h) ServerError
                ("Server command failed: " ++ ("Network error: " ++ es))])%list /\
    idleCount evs0 = 0%nat /\ forallb (fun e => negb (isPost e)) evs0 = true.
Proof.
  intro Hf. unfold requestFinished, netErrorState.
  unfold bind, ret, get, modify, emit. cbn -[setStatus]. rewrite Hf. cbn -[setStatus].
  destruct ((MAX_RETRY_ATTEMPTS <=? consecutiveFailures st + 1)%Z
            && statusEqb (currentStatus st) Connected).
  - rewrite setStatus_spec. cbn. split; [reflexivity|].
    eexists. split; [reflexivity|]. unfold setStatusEvents.
    destruct (statusEqb _ _); cbn; auto.
  - cbn. split; [reflexivity|]. exists []. auto.
Qed.

Lemma requestFinished_body nf body st h :
  inflight st = Some h ->
  exists res msg,
    requestFinished nf (ReplyNoError body) st =
    (tt, setExecutionState Idle (setInflight None st),
     [ExecutionStateChanged Idle; Callback res msg;
      CommandExecuted (pendingCommand h) res msg]) /\
    (forall o, body = BodyDocument (Json.Object o) ->
       res = Success /\ msg = formatServerResponse nf (pendingBase h) o).
Proof.
  intro Hf. unfold requestFinished. unfold bind, ret, get, modify, emit. cbn. rewrite Hf.
  destruct body as [e|[| | | | | |o]]; cbn;
    do 2 eexists; (split; [reflexivity|]); intros o' Ho'; try discriminate.
  injection Ho' as <-. split; reflexivity.
Qed.

Lemma requestFinished_none nf r st :
  inflight st = None -> requestFinished nf r st = (tt, st, []).
Proof.
  intro Hf. unfold requestFinished. unfold bind, ret, get, modify, emit. cbn.
  rewrite Hf. reflexivity.
Qed.

Lemma start_spec st :
  startHealthMonitoring st =
  (tt, setStatusState Connecting st, (setStatusEvents Connecting st ++ [HealthProbe])%list).
Proof.
  unfold startHealthMonitoring. unfold bind, ret, get, modify, emit. cbn -[setStatus].
  rewrite setStatus_spec. reflexivity.
Qed.

Lemma step_state_bind nf i tr st :
  stateOf (run nf (i :: tr) st) = stateOf (run nf tr (stateOf (step nf i st))).
Proof.
  cbn [run]. unfold bind, stateOf. destruct (step nf i st) as [[u s1] e1]. cbn.
  destruct (run nf tr s1) as [[v s2] e2]. reflexivity.
Qed.

Lemma Inv_initial : Inv initial.
Proof. constructor; cbn; [reflexivity | exact I | discriminate]. Qed.

Lemma probe_inv err st : Inv st -> Inv (probeState err st).
Proof.
  intros [Ha Hg He]. destruct st as [cs cf av ex fl]. cbn in Hg, He.
  unfold isReady in Ha. cbn [currentStatus] in Ha.
  unfold probeState, setStatusState. cbn [currentStatus consecutiveFailures setFailures].
  destruct err as [es|].
  - destruct (MAX_RETRY_ATTEMPTS <=? cf + 1)%Z eqn:Hm.
    + apply Z.leb_le in Hm.
      destruct cs; cbn; constructor; cbn; auto; try discriminate; try lia.
    + apply Z.leb_gt in Hm.
      destruct cs; cbn; constructor; cbn; auto; try discriminate;
        intro HE; specialize (He HE); unfold MAX_RETRY_ATTEMPTS in *; lia.
  - destruct cs; cbn; constructor; cbn; auto; discriminate.
Qed.

Lemma netError_inv st h : Inv st -> inflight st = Some h ->
  Inv (setExecutionState Idle (netErrorState st)).
Proof.
  intros [Ha Hg He] Hf. destruct st as [cs cf av ex fl]. cbn in Hg, He, Hf. subst fl.
  unfold isReady in Ha. cbn [currentStatus] in Ha.
  unfold netErrorState, setStatusState. cbn [currentStatus consecutiveFailures].
  destruct (MAX_RETRY_ATTEMPTS <=? cf + 1)%Z eqn:Hm.
  - apply Z.leb_le in Hm.
    destruct cs; cbn; constructor; cbn; auto; try discriminate; try lia.
  - destruct cs; cbn; constructor; cbn; auto; try discriminate;
      intro HE; specialize (He HE); lia.
Qed.

Lemma step_inv nf i st : Inv st -> Inv (stateOf (step nf i st)).
Proof.
  intro HI. destruct i as [|err|c t now|r]; cbn [step].
  - rewrite start_spec. unfold stateOf. cbn [fst snd].
    destruct HI as [Ha Hg He]. unfold setStatusState.
    destruct (statusEqb (currentStatus st) Connecting); [constructor; assumption|].
    destruct st as [cs cf av ex fl]; constructor; cbn in *; auto; discriminate.
  - rewrite probe_spec. apply probe_inv. exact HI.
  - destruct (executionState st) eqn:Hx.
    + destruct (executeCommand_idle_cases st c t now Hx)
        as [[r [msg [nm ->]]] | [b [a [url [data [_ [_ ->]]]]]]];
        destruct HI as [Ha Hg He]; rewrite Hx in Hg;
        destruct st as [cs cf av ex fl]; cbn in *; destruct fl; try contradiction;
        constructor; cbn; auto.
    + rewrite (DispatchFacts.executeCommand_busy st c t now Hx). exact HI.
  - destruct (inflight st) as [h|] eqn:Hf.
    + destruct r as [body|es].
      * destruct (requestFinished_body nf body st h Hf) as [res [msg [-> _]]].
        destruct HI as [Ha Hg He]. destruct st as [cs cf av ex fl].
        cbn in *. constructor; cbn; auto.
      * destruct (requestFinished_netError nf es st h Hf) as [-> _].
        apply (netError_inv st h HI Hf).
    + rewrite (requestFinished_none nf r st Hf). exact HI.
Qed.

Lemma run_inv nf tr st : Inv st -> Inv (stateOf (run nf tr st)).
Proof.
  revert st. induction tr as [|i tr IH]; intros st HI; [exact HI|].
  rewrite step_state_bind. apply IH. apply step_inv. exact HI.
Qed.

Lemma reachable_inv nf s : reachable nf s -> Inv s.
Proof. intros [tr <-]. apply run_inv. exact Inv_initial. Qed.

Lemma probeState_executionState err st :
  executionState (probeState err st) = executionState st.
Proof.
  destruct st as [cs cf av ex fl]. unfold probeState, setStatusState.
  destruct err; cbn;
    repeat match goal with |- context [if ?b then _ else _] => destruct b end;
    reflexivity.
Qed.

Lemma help_available s : Inv s -> existsb (String.eqb "help") (availableCommands s) = true.
Proof.
  intros [Ha _ _]. rewrite Ha. destruct (isReady s); reflexivity.
Qed.

Lemma executeCommand_help s now :
  Inv s -> executionState s = Idle ->
  exists msg, In (Callback Success msg) (eventsOf (executeCommand "help" "" now s)).
Proof.
  intros HI Hx. pose proof (help_available s HI) as Hh.
  assert (Hp : parseCommandWithArgs "help" = Some ("help", [])) by reflexivity.
  unfold executeCommand. unfold bind, ret, get, modify, emit.
  cbn -[existsb parseCommandWithArgs setExecutionState String.eqb].
  rewrite Hx, Hp. cbn -[existsb String.eqb]. rewrite Hh.
  cbn. eexists. right. right. left. reflexivity.
Qed.

End EngineFacts.






(** C2: while the gate is closed ([Executing]) [executeCommand] only reports
    [ExecutionError] (the error no other path uses) and changes nothing, the
    awaited request included; once the gate is closed, the command finishes
    either at once, back at Idle, or when its reply arrives, and in both cases
    the gate is reopened exactly once; probes leave the gate alone; and at
    Idle a new command (e.g. "help") succeeds. *)
Theorem single_flight_gate nf st command inputText now :
  Engine.reachable nf st ->
  (Engine.executionState st = CM.Executing ->
   Engine.executeCommand command inputText now st =
   (tt, st,
    [Engine.Callback CM.ExecutionError "Cannot execute command: another command is already running";
     Engine.CommandExecuted command CM.ExecutionError
       "Cannot execute command: another command is already running"])) /\
  (Engine.executionState st = CM.Idle ->
   let r := Engine.executeCommand command inputText now st in
   (Engine.executionState (Engine.stateOf r) = CM.Idle /\
    EngineFacts.idleCount (Engine.eventsOf r) = 1%nat /\
    Engine.inflight (Engine.stateOf r) = None) \/
   (Engine.executionState (Engine.stateOf r) = CM.Executing /\
    EngineFacts.idleCount (Engine.eventsOf r) = 0%nat /\
    Engine.inflight (Engine.stateOf r) <> None)) /\
  (forall reply, Engine.executionState st = CM.Executing ->
   let r := Engine.requestFinished nf reply st in
   Engine.executionState (Engine.stateOf r) = CM.Idle /\
   EngineFacts.idleCount (Engine.eventsOf r) = 1%nat) /\
  (forall err,
   let r := Engine.handleHealthCheckResponse err st in
   Engine.executionState (Engine.stateOf r) = Engine.executionState st /\
   EngineFacts.idleCount (Engine.eventsOf r) = 0%nat) /\
  (Engine.executionState st = CM.Idle ->
   exists msg, In (Engine.Callback CM.Success msg)
                  (Engine.eventsOf (Engine.executeCommand "help" "" now st))).
Proof.
  intro Hr. pose proof (EngineFacts.reachable_inv nf st Hr) as HI.
  split; [apply DispatchFacts.executeCommand_busy|].
  split.
  { intro Hx. pose proof HI as [_ Hg _]. rewrite Hx in Hg.
    destruct (EngineFacts.executeCommand_idle_cases st command inputText now Hx)
      as [[r [msg [nm ->]]] | [b [a [url [data [_ [_ ->]]]]]]].
    - left. cbn. destruct (Engine.inflight st); [contradiction|].
      repeat split; reflexivity.
    - right. cbn. repeat split; discriminate. }
  split.
  { intros reply Hx. pose proof HI as [_ Hg _]. rewrite Hx in Hg.
    destruct (Engine.inflight st) as [h|] eqn:Hf; [|contradiction].
    destruct reply as [body|es].
    - destruct (EngineFacts.requestFinished_body nf body st h Hf) as [res [msg [-> _]]].
      split; reflexivity.
    - destruct (EngineFacts.requestFinished_netError nf es st h Hf)
        as [Hs [evs0 [He [H0 _]]]].
      cbv zeta. rewrite Hs, He, EngineFacts.idleCount_app, H0. split; reflexivity. }
  split.
  { intro err. split.
    - rewrite EngineFacts.probe_spec. apply EngineFacts.probeState_executionState.
    - apply (proj1 (EngineFacts.probe_events_quiet err st)). }
  intro Hx. apply EngineFacts.executeCommand_help; assumption.
Qed.

Lemma single_flight_gate_witness :
  let nf := noNumberFormat in
  let st := Engine.stateOf (Engine.run nf
              [Engine.StartMonitoring; Engine.HealthCheckFinished None;
               Engine.ExecuteCommand "tone formal" "Hello there." 0] Engine.initial) in
  Engine.reachable nf st /\ Engine.executionState st = CM.Executing /\
  Engine.executeCommand "summarise 30" "More text." 1 st =
  (tt, st,
   [Engine.Callback CM.ExecutionError "Cannot execute command: another command is already running";
    Engine.CommandExecuted "summarise 30" CM.ExecutionError
      "Cannot execute command: another command is already running"]).
Proof.
  intros nf st.
  assert (Hr : Engine.reachable nf st) by (eexists; reflexivity).
  assert (Hx : Engine.executionState st = CM.Executing) by reflexivity.
  split; [exact Hr|]. split; [exact Hx|].
  exact (proj1 (single_flight_gate nf st "summarise 30" "More text." 1 Hr) Hx).
Defined.

Module RemoteFacts.
Import CM Engine.

Lemma not_available_offline b :
  requiresServer (getCommandInfo b) = true ->
  existsb (String.eqb b) (availableFor false) = false.
Proof.
  intro Hreq. change (availableFor false) with ["clear"; "help"]. cbn [existsb].
  destruct (String.eqb_spec b "clear") as [->|_]; [discriminate Hreq|].
  destruct (String.eqb_spec b "help") as [->|_]; [discriminate Hreq|].
  reflexivity.
Qed.

Lemma noPost_busy st c t now :
  executionState st = Executing ->
  forallb (fun e => negb (EngineFacts.isPost e)) (eventsOf (executeCommand c t now st)) = true.
Proof. intro Hx. rewrite (DispatchFacts.executeCommand_busy st c t now Hx). reflexivity. Qed.

End RemoteFacts.

(** C4: a command that needs the server, dispatched while the status is not
    Connected, fails with [ServerError] "Command '<base>' is not available
    (server required but not ready)" and posts nothing; the gate goes back
    to Idle.  (While another command runs, it is refused by the gate, also
    without posting.) *)
Theorem remote_command_offline nf st command inputText now b a :
  Engine.reachable nf st ->
  Engine.currentStatus st <> Engine.Connected ->
  CM.parseCommandWithArgs command = Some (b, a) ->
  CM.requiresServer (CM.getCommandInfo b) = true ->
  (Engine.executionState st = CM.Idle ->
   Engine.executeCommand command inputText now st =
   (tt, Engine.setExecutionState CM.Idle st,
    [Engine.ExecutionStateChanged CM.Executing; Engine.ExecutionStateChanged CM.Idle;
     Engine.Callback CM.ServerError
       ("Command '" ++ b ++ "' is not available (server required but not ready)");
     Engine.CommandExecuted command CM.ServerError
       ("Command '" ++ b ++ "' is not available (server required but not ready)")])) /\
  forallb (fun e => negb (EngineFacts.isPost e))
    (Engine.eventsOf (Engine.executeCommand command inputText now st)) = true.
Proof.
  intros Hr Hc Hp Hreq.
  pose proof (EngineFacts.reachable_inv nf st Hr) as [Ha _ _].
  assert (Hready : Engine.isReady st = false).
  { unfold Engine.isReady. destruct (Engine.currentStatus st); try reflexivity.
    exfalso. apply Hc. reflexivity. }
  rewrite Hready in Ha.
  assert (Hav : existsb (String.eqb b) (Engine.availableCommands st) = false).
  { rewrite Ha. apply RemoteFacts.not_available_offline. exact Hreq. }
  assert (Hidle : Engine.executionState st = CM.Idle ->
    Engine.executeCommand command inputText now st =
    (tt, Engine.setExecutionState CM.Idle st,
     [Engine.ExecutionStateChanged CM.Executing; Engine.ExecutionStateChanged CM.Idle;
      Engine.Callback CM.ServerError
        ("Command '" ++ b ++ "' is not available (server required but not ready)");
      Engine.CommandExecuted command CM.ServerError
        ("Command '" ++ b ++ "' is not available (server required but not ready)")])).
  { intro Hx. unfold Engine.executeCommand. unfold Engine.bind, Engine.ret, Engine.get,
      Engine.modify, Engine.emit.
    cbn -[existsb CM.parseCommandWithArgs Engine.setExecutionState String.eqb].
    rewrite Hx, Hp. cbn -[existsb String.eqb]. rewrite Hav. reflexivity. }
  split; [exact Hidle|].
  destruct (Engine.executionState st) eqn:Hx.
  - rewrite (Hidle eq_refl). reflexivity.
  - apply RemoteFacts.noPost_busy. exact Hx.
Qed.

Lemma remote_command_offline_witness :
  Engine.reachable noNumberFormat Engine.initial /\
  Engine.currentStatus Engine.initial <> Engine.Connected /\
  CM.parseCommandWithArgs "tone formal" = Some ("tone", []) /\
  CM.requiresServer (CM.getCommandInfo "tone") = true /\
  forallb (fun e => negb (EngineFacts.isPost e))
    (Engine.eventsOf (Engine.executeCommand "tone formal" "Hello." 0 Engine.initial)) = true.
Proof.
  assert (H1 : Engine.reachable noNumberFormat Engine.initial) by (exists []; reflexivity).
  assert (H2 : Engine.currentStatus Engine.initial <> Engine.Connected) by discriminate.
  assert (H3 : CM.parseCommandWithArgs "tone formal" = Some ("tone", [])) by reflexivity.
  assert (H4 : CM.requiresServer (CM.getCommandInfo "tone") = true) by reflexivity.
  split; [exact H1|]. split; [exact H2|]. split; [exact H3|]. split; [exact H4|].
  exact (proj2 (remote_command_offline noNumberFormat Engine.initial "tone formal" "Hello." 0
                  "tone" [] H1 H2 H3 H4)).
Defined.

(** ** Remote replies and the failure counter *)

(** The run of the end-to-end scenario: connect, send "summarise", and the
    backend answers HTTP 200 with {"error": "model not loaded"}. *)
Definition modelNotLoadedRun (command : string) : list Engine.Input :=
  [Engine.StartMonitoring; Engine.HealthCheckFinished None;
   Engine.ExecuteCommand command "Some long text to summarise." 0;
   Engine.RequestFinished
     (Engine.ReplyNoError (Engine.BodyDocument
        (Json.Object [("error", Json.Str "model not loaded")])))].

(** C5 counterexample: the reply {"error": "model not loaded"} to "summarise"
    is delivered as [Success] with message "Error: model not loaded", and no
    failure outcome is delivered; for "tone" the error text is dropped. *)
Lemma backend_error_field_reported_as_success :
  let evs := Engine.eventsOf (Engine.run noNumberFormat (modelNotLoadedRun "summarise")
                                Engine.initial) in
  let evs' := Engine.eventsOf (Engine.run noNumberFormat (modelNotLoadedRun "tone")
                                 Engine.initial) in
  In (Engine.Callback CM.Success "Error: model not loaded") evs /\
  (forall r msg, In (Engine.Callback r msg) evs -> r = CM.Success) /\
  In (Engine.Callback CM.Success "Command 'tone' executed successfully") evs'.
Proof.
  vm_compute. split; [|split].
  - repeat (first [left; reflexivity | right]).
  - intros r msg H. repeat (destruct H as [H|H]; [try discriminate H|]);
      [injection H as <- _; reflexivity | contradiction].
  - repeat (first [left; reflexivity | right]).
Qed.

(** C5 (as the code does it): a reply that arrives without network error and
    parses as a JSON object always completes the command with [Success] and
    the formatted response, whatever fields it has.  An "error" field is only
    looked at for "summarise", whose message is then "Error: <text>"; for the
    other commands the message depends on "result" and "output" alone. *)
Theorem backend_object_reply_is_success nf st h o :
  Engine.inflight st = Some h ->
  Engine.eventsOf (Engine.requestFinished nf
     (Engine.ReplyNoError (Engine.BodyDocument (Json.Object o))) st) =
  [Engine.ExecutionStateChanged CM.Idle;
   Engine.Callback CM.Success (Engine.formatServerResponse nf (Engine.pendingBase h) o);
   Engine.CommandExecuted (Engine.pendingCommand h) CM.Success
     (Engine.formatServerResponse nf (Engine.pendingBase h) o)] /\
  (Json.contains "error" o = true ->
   Engine.formatServerResponse nf "summarise" o =
   "Error: " ++ Json.toString (Json.lookup "error" o)) /\
  (forall o', Engine.pendingBase h <> "summarise" ->
   Json.lookup "result" o = Json.lookup "result" o' ->
   Json.lookup "output" o = Json.lookup "output" o' ->
   Engine.formatServerResponse nf (Engine.pendingBase h) o =
   Engine.formatServerResponse nf (Engine.pendingBase h) o').
Proof.
  intro Hf. split; [|split].
  - destruct (EngineFacts.requestFinished_body nf (Engine.BodyDocument (Json.Object o)) st h Hf)
      as [res [msg [-> Hm]]].
    destruct (Hm o eq_refl) as [-> ->]. reflexivity.
  - intro He. unfold Engine.formatServerResponse. rewrite He. reflexivity.
  - intros o' Hb Hr Ho. unfold Engine.formatServerResponse.
    apply String.eqb_neq in Hb. rewrite Hb, Hr, Ho. reflexivity.
Qed.

Lemma backend_object_reply_is_success_witness :
  let st := Engine.stateOf (Engine.run noNumberFormat
              (firstn 3 (modelNotLoadedRun "summarise")) Engine.initial) in
  Engine.inflight st = Some (Engine.mkPending "summarise" "summarise") /\
  Engine.eventsOf (Engine.requestFinished noNumberFormat
     (Engine.ReplyNoError (Engine.BodyDocument
        (Json.Object [("error", Json.Str "model not loaded")]))) st) =
  [Engine.ExecutionStateChanged CM.Idle;
   Engine.Callback CM.Success "Error: model not loaded";
   Engine.CommandExecuted "summarise" CM.Success "Error: model not loaded"].
Proof.
  intro st.
  assert (Hf : Engine.inflight st = Some (Engine.mkPending "summarise" "summarise"))
    by reflexivity.
  split; [exact Hf|].
  exact (proj1 (backend_object_reply_is_success noNumberFormat st _
                  [("error", Json.Str "model not loaded")] Hf)).
Defined.

(** C10: a network error on the awaited command request adds one to the
    failure counter that health probing uses, and when the counter reaches
    MAX_RETRY_ATTEMPTS (15) while Connected the status becomes Error; below
    the ceiling a Connected status is kept. *)
Theorem command_network_error_escalates nf st h es :
  Engine.inflight st = Some h ->
  Engine.consecutiveFailures
    (Engine.stateOf (Engine.requestFinished nf (Engine.ReplyNetworkError es) st)) =
  (Engine.consecutiveFailures st + 1)%Z /\
  (Engine.currentStatus st = Engine.Connected ->
   Engine.currentStatus
     (Engine.stateOf (Engine.requestFinished nf (Engine.ReplyNetworkError es) st)) =
   if (Engine.MAX_RETRY_ATTEMPTS <=? Engine.consecutiveFailures st + 1)%Z
   then Engine.Error else Engine.Connected).
Proof.
  intro Hf. destruct (EngineFacts.requestFinished_netError nf es st h Hf) as [-> _].
  destruct st as [cs cf av ex fl]. unfold EngineFacts.netErrorState, EngineFacts.setStatusState.
  cbn [Engine.currentStatus Engine.consecutiveFailures].
  split.
  - destruct ((Engine.MAX_RETRY_ATTEMPTS <=? cf + 1)%Z && Engine.statusEqb cs Engine.Connected);
      [destruct cs|]; reflexivity.
  - intros ->. cbn. destruct (Engine.MAX_RETRY_ATTEMPTS <=? cf + 1)%Z; reflexivity.
Qed.

(** Fourteen commands whose requests fail on the network, after the server
    came up, then a fifteenth sent. *)
Definition failingCommandsRun : list Engine.Input :=
  ([Engine.StartMonitoring; Engine.HealthCheckFinished None] ++
   List.concat (repeat [Engine.ExecuteCommand "rephrase" "Some text." 0;
                        Engine.RequestFinished (Engine.ReplyNetworkError "Connection refused")] 14) ++
   [Engine.ExecuteCommand "rephrase" "Some text." 0])%list.

Lemma command_network_error_escalates_witness :
  let st := Engine.stateOf (Engine.run noNumberFormat failingCommandsRun Engine.initial) in
  Engine.inflight st = Some (Engine.mkPending "rephrase" "rephrase") /\
  Engine.currentStatus st = Engine.Connected /\
  Engine.consecutiveFailures st = 14%Z /\
  Engine.currentStatus
    (Engine.stateOf (Engine.requestFinished noNumberFormat
       (Engine.ReplyNetworkError "Connection refused") st)) = Engine.Error.
Proof.
  intro st.
  assert (Hf : Engine.inflight st = Some (Engine.mkPending "rephrase" "rephrase"))
    by (vm_compute; reflexivity).
  assert (Hc : Engine.currentStatus st = Engine.Connected) by (vm_compute; reflexivity).
  assert (Hn : Engine.consecutiveFailures st = 14%Z) by (vm_compute; reflexivity).
  split; [exact Hf|]. split; [exact Hc|]. split; [exact Hn|].
  rewrite (proj2 (command_network_error_escalates noNumberFormat st _ "Connection refused" Hf) Hc).
  rewrite Hn. reflexivity.
Defined.

Module ProbeFacts.
Import CM Engine EngineFacts.

Lemma run_app nf a b st :
  stateOf (run nf (a ++ b) st) = stateOf (run nf b (stateOf (run nf a st))).
Proof.
  revert st. induction a as [|i a IH]; intro st; [reflexivity|].
  cbn [List.app]. rewrite !step_state_bind. apply IH.
Qed.

Lemma probeState_fail_failures es st :
  consecutiveFailures (probeState (Some es) st) = (consecutiveFailures st + 1)%Z.
Proof.
  destruct st as [cs cf av ex fl]. unfold probeState, setStatusState. cbn.
  destruct (MAX_RETRY_ATTEMPTS <=? cf + 1)%Z; destruct cs; reflexivity.
Qed.

Lemma probeState_fail_below es st :
  currentStatus st = Connecting ->
  (consecutiveFailures st + 1 < MAX_RETRY_ATTEMPTS)%Z ->
  probeState (Some es) st = setFailures (consecutiveFailures st + 1) st.
Proof.
  intros Hc Hl. unfold probeState.
  replace (MAX_RETRY_ATTEMPTS <=? consecutiveFailures st + 1)%Z with false
    by (symmetry; apply Z.leb_gt; exact Hl).
  unfold setStatusState. cbn. rewrite Hc. reflexivity.
Qed.

Lemma probeState_fail_ceiling es st :
  (MAX_RETRY_ATTEMPTS <= consecutiveFailures st + 1)%Z ->
  currentStatus (probeState (Some es) st) = Error.
Proof.
  intro Hl. unfold probeState.
  replace (MAX_RETRY_ATTEMPTS <=? consecutiveFailures st + 1)%Z with true
    by (symmetry; apply Z.leb_le; exact Hl).
  unfold setStatusState. destruct st as [cs cf av ex fl]; destruct cs; reflexivity.
Qed.

Lemma run_probe_fail nf es n st :
  stateOf (run nf (repeat (HealthCheckFinished (Some es)) (S n)) st) =
  stateOf (run nf (repeat (HealthCheckFinished (Some es)) n) (probeState (Some es) st)).
Proof. cbn [repeat]. rewrite step_state_bind. cbn [step]. rewrite probe_spec. reflexivity. Qed.

Lemma run_probe_fails_below nf es n st :
  currentStatus st = Connecting ->
  (consecutiveFailures st + Z.of_nat n < MAX_RETRY_ATTEMPTS)%Z ->
  currentStatus (stateOf (run nf (repeat (HealthCheckFinished (Some es)) n) st)) = Connecting /\
  consecutiveFailures (stateOf (run nf (repeat (HealthCheckFinished (Some es)) n) st)) =
  (consecutiveFailures st + Z.of_nat n)%Z.
Proof.
  revert st. induction n as [|n IH]; intros st Hc Hl.
  - split; [exact Hc|]. cbn. lia.
  - rewrite run_probe_fail. rewrite (probeState_fail_below es st Hc) by lia.
    destruct (IH (setFailures (consecutiveFailures st + 1) st)) as [H1 H2];
      [destruct st; exact Hc | destruct st; cbn in *; lia|].
    split; [exact H1|]. rewrite H2. destruct st; cbn. lia.
Qed.

End ProbeFacts.

(** C3 counterexample: after a successful probe, one command whose request
    fails on the network followed by only 14 failed probes (no success in
    between) already puts the monitor in Error. *)
Definition probeFailures (tr : list Engine.Input) : nat :=
  List.length (filter (fun i => match i with
                                | Engine.HealthCheckFinished (Some _) => true
                                | _ => false
                                end) tr).

Definition probeSuccesses (tr : list Engine.Input) : nat :=
  List.length (filter (fun i => match i with
                                | Engine.HealthCheckFinished None => true
                                | _ => false
                                end) tr).

Lemma error_after_fourteen_failed_probes :
  let after := ([Engine.ExecuteCommand "keywords" "Some text." 0;
                 Engine.RequestFinished (Engine.ReplyNetworkError "Connection refused")] ++
                repeat (Engine.HealthCheckFinished (Some "Connection refused")) 14)%list in
  probeFailures after = 14%nat /\ probeSuccesses after = 0%nat /\
  Engine.currentStatus (Engine.stateOf (Engine.run noNumberFormat
    ([Engine.StartMonitoring; Engine.HealthCheckFinished None] ++ after)%list
    Engine.initial)) = Engine.Error.
Proof. vm_compute. split; [reflexivity|]. split; reflexivity. Qed.

(** C3 (amended): starting from Connecting with the failure counter at 0,
    fewer than MAX_RETRY_ATTEMPTS (15) failed probes keep the status at
    Connecting with the counter equal to the number of failures, and the
    15th consecutive failure moves it to Error; every failed probe adds one
    to the counter; a successful probe sets the counter to 0 and leaves the
    monitor Connected; entering Connected through setStatus resets the
    counter; and in every reachable state, Error implies a counter of at
    least 15.  The counter is shared with network errors of command
    requests (see C10), so it does not count probe failures alone. *)
Theorem probe_failure_ceiling nf :
  (forall st es n,
     Engine.currentStatus st = Engine.Connecting -> Engine.consecutiveFailures st = 0%Z ->
     (n < 15)%nat ->
     Engine.currentStatus (Engine.stateOf
       (Engine.run nf (repeat (Engine.HealthCheckFinished (Some es)) n) st)) = Engine.Connecting /\
     Engine.consecutiveFailures (Engine.stateOf
       (Engine.run nf (repeat (Engine.HealthCheckFinished (Some es)) n) st)) = Z.of_nat n) /\
  (forall st es,
     Engine.currentStatus st = Engine.Connecting -> Engine.consecutiveFailures st = 0%Z ->
     Engine.currentStatus (Engine.stateOf
       (Engine.run nf (repeat (Engine.HealthCheckFinished (Some es)) 15) st)) = Engine.Error) /\
  (forall st es,
     Engine.consecutiveFailures (Engine.stateOf (Engine.handleHealthCheckResponse (Some es) st)) =
     (Engine.consecutiveFailures st + 1)%Z) /\
  (forall st,
     Engine.currentStatus (Engine.stateOf (Engine.handleHealthCheckResponse None st)) = Engine.Connected /\
     Engine.consecutiveFailures (Engine.stateOf (Engine.handleHealthCheckResponse None st)) = 0%Z) /\
  (forall st,
     Engine.currentStatus st <> Engine.Connected ->
     Engine.consecutiveFailures (Engine.stateOf (Engine.setStatus Engine.Connected st)) = 0%Z) /\
  (forall s, Engine.reachable nf s -> Engine.currentStatus s = Engine.Error ->
     (Engine.MAX_RETRY_ATTEMPTS <= Engine.consecutiveFailures s)%Z).
Proof.
  split; [|split; [|split; [|split; [|split]]]].
  - intros st es n Hc H0 Hn.
    destruct (ProbeFacts.run_probe_fails_below nf es n st Hc) as [H1 H2];
      [rewrite H0; unfold Engine.MAX_RETRY_ATTEMPTS; lia|].
    split; [exact H1|]. rewrite H2, H0. lia.
  - intros st es Hc H0.
    change (repeat (Engine.HealthCheckFinished (Some es)) 15) with
      (repeat (Engine.HealthCheckFinished (Some es)) 14 ++
       repeat (Engine.HealthCheckFinished (Some es)) 1)%list.
    rewrite ProbeFacts.run_app.
    destruct (ProbeFacts.run_probe_fails_below nf es 14 st Hc) as [H1 H2];
      [rewrite H0; unfold Engine.MAX_RETRY_ATTEMPTS; lia|].
    rewrite ProbeFacts.run_probe_fail.
    apply ProbeFacts.probeState_fail_ceiling.
    rewrite H2, H0. unfold Engine.MAX_RETRY_ATTEMPTS. lia.
  - intros st es. rewrite EngineFacts.probe_spec. apply ProbeFacts.probeState_fail_failures.
  - intro st. rewrite EngineFacts.probe_spec.
    destruct st as [cs cf av ex fl]. destruct cs; split; reflexivity.
  - intros st Hc. rewrite EngineFacts.setStatus_spec.
    destruct st as [cs cf av ex fl]. destruct cs; cbn in Hc; [reflexivity|reflexivity|congruence|reflexivity].
  - intros s Hr. exact (EngineFacts.inv_error _ (EngineFacts.reachable_inv nf s Hr)).
Qed.

Lemma probe_failure_ceiling_witness :
  Engine.currentStatus (Engine.stateOf (Engine.run noNumberFormat
    (repeat (Engine.HealthCheckFinished (Some "Connection refused")) 15)
    (Engine.setCurrentStatus Engine.Connecting Engine.initial))) = Engine.Error /\
  Engine.consecutiveFailures (Engine.stateOf (Engine.run noNumberFormat
    (repeat (Engine.HealthCheckFinished (Some "Connection refused")) 3)
    (Engine.setCurrentStatus Engine.Connecting Engine.initial))) = 3%Z.
Proof.
  split.
  - exact (proj1 (proj2 (probe_failure_ceiling noNumberFormat))
             (Engine.setCurrentStatus Engine.Connecting Engine.initial) "Connection refused"
             eq_refl eq_refl).
  - exact (proj2 (proj1 (probe_failure_ceiling noNumberFormat)
             (Engine.setCurrentStatus Engine.Connecting Engine.initial) "Connection refused" 3
             eq_refl eq_refl ltac:(lia))).
Defined.


(** ** More of the code: queries, suggestions and the engine *)

Module CommandFacts.
Import CM Engine EngineFacts.

Lemma parse_some_contains c b a :
  parseCommandWithArgs c = Some (b, a) ->
  containsCommand b = true /\ (b <> "summarise" -> a = []).
Proof.
  unfold parseCommandWithArgs. destruct (QStr.splitSkip c) as [|p0 rest]; [discriminate|].
  destruct (String.eqb (QStr.toLower p0) "summarise" || String.eqb (QStr.toLower p0) "summarize").
  - destruct rest as [|p1 [|p2 r]].
    + intro H. injection H as <- <-. split; [reflexivity|]. intro N; contradiction.
    + destruct (QStr.toInt p1) as [p|]; [|discriminate].
      destruct ((p <=? 0)%Z || (100 <=? p)%Z); [discriminate|].
      intro H. injection H as <- <-. split; [reflexivity|]. intro N; contradiction.
    + discriminate.
  - destruct (containsCommand (QStr.toLower p0)) eqn:Hc; [|discriminate].
    intro H. injection H as <- <-. split; [exact Hc|]. reflexivity.
Qed.

Definition commandKeys : list string := map fst commands.

Lemma containsCommand_In k : containsCommand k = true -> In k commandKeys.
Proof.
  unfold containsCommand. intro H. apply existsb_exists in H as [[k' i] [Hin He]].
  apply String.eqb_eq in He. cbn in He. subst k'.
  apply (in_map fst) in Hin. exact Hin.
Qed.

Lemma executeCommand_connectivity c t now st :
  currentStatus (stateOf (executeCommand c t now st)) = currentStatus st /\
  consecutiveFailures (stateOf (executeCommand c t now st)) = consecutiveFailures st /\
  availableCommands (stateOf (executeCommand c t now st)) = availableCommands st.
Proof.
  destruct (executionState st) eqn:Hx.
  - destruct (executeCommand_idle_cases st c t now Hx)
      as [[r [msg [nm ->]]] | [b [a [url [data [_ [_ ->]]]]]]];
      destruct st; repeat split.
  - rewrite (DispatchFacts.executeCommand_busy st c t now Hx). repeat split.
Qed.

End CommandFacts.

Module CounterFacts.
Import CM Engine EngineFacts.

(** Bounds on the failure counter kept by every reachable state. *)
Definition CounterInv (s : Sys) : Prop :=
  (0 <= consecutiveFailures s)%Z /\
  (currentStatus s = Connected -> (consecutiveFailures s < MAX_RETRY_ATTEMPTS)%Z).

Lemma setStatusState_status v st : currentStatus (setStatusState v st) = v.
Proof.
  unfold setStatusState. destruct (statusEqb (currentStatus st) v) eqn:E.
  - apply statusEqb_true. exact E.
  - destruct st; destruct v; reflexivity.
Qed.

Lemma setStatusState_failures v st :
  consecutiveFailures (setStatusState v st) =
  if statusEqb (currentStatus st) v then consecutiveFailures st
  else if statusEqb v Connected then 0%Z else consecutiveFailures st.
Proof.
  unfold setStatusState. destruct (statusEqb (currentStatus st) v); [reflexivity|].
  destruct st; destruct v; reflexivity.
Qed.

Lemma counter_step nf i st : CounterInv st -> CounterInv (stateOf (step nf i st)).
Proof.
  unfold CounterInv. intros [H0 Hc]. destruct i as [|err|c t now|r]; cbn [step].
  - rewrite start_spec. unfold stateOf; cbn [fst snd]. split.
    + rewrite setStatusState_failures.
      destruct (statusEqb _ _); cbn; lia.
    + intro HC. rewrite setStatusState_status in HC. discriminate.
  - rewrite probe_spec. destruct err as [es|]; unfold probeState.
    + destruct (MAX_RETRY_ATTEMPTS <=? consecutiveFailures st + 1)%Z; split;
        try (intro HC; rewrite setStatusState_status in HC; discriminate);
        rewrite setStatusState_failures; cbn [consecutiveFailures setFailures];
        destruct (statusEqb _ _); cbn; lia.
    + destruct (statusEqb (currentStatus st) Connected) eqn:E.
      * split; cbn; [lia|]. intros _. unfold MAX_RETRY_ATTEMPTS. lia.
      * split; rewrite setStatusState_failures; cbn;
          destruct (statusEqb _ _); cbn; try lia;
          intros _; unfold MAX_RETRY_ATTEMPTS; lia.
  - destruct (CommandFacts.executeCommand_connectivity c t now st) as [E1 [E2 _]].
    split; rewrite ?E1, ?E2; assumption.
  - destruct (inflight st) as [h|] eqn:Hf.
    + destruct r as [body|es].
      * destruct (requestFinished_body nf body st h Hf) as [res [msg [-> _]]].
        destruct st; cbn in *. split; assumption.
      * destruct (requestFinished_netError nf es st h Hf) as [-> _].
        unfold netErrorState.
        destruct ((MAX_RETRY_ATTEMPTS <=? consecutiveFailures st + 1)%Z
                  && statusEqb (currentStatus st) Connected) eqn:E.
        -- split.
           ++ cbn [consecutiveFailures setExecutionState]. rewrite setStatusState_failures.
              destruct st; cbn in *. match goal with |- context [if ?b then _ else _] => destruct b end; lia.
           ++ intro HC. cbn [currentStatus setExecutionState] in HC.
              rewrite setStatusState_status in HC. discriminate.
        -- apply andb_false_iff in E.
           destruct st as [cs cf av ex fl]; cbn in *. split; [lia|].
           intro HC. subst cs. destruct E as [E|E]; [apply Z.leb_gt in E; exact E|discriminate].
    + rewrite (requestFinished_none nf r st Hf). split; assumption.
Qed.

Lemma counter_run nf tr st : CounterInv st -> CounterInv (stateOf (run nf tr st)).
Proof.
  revert st. induction tr as [|i tr IH]; intros st H; [exact H|].
  rewrite step_state_bind. apply IH. apply counter_step. exact H.
Qed.

End CounterFacts.

Module CaseFacts.

Lemma toLowerChar_space x : Ascii.eqb (QStr.toLowerChar x) " " = Ascii.eqb x " ".
Proof. destruct x as [[] [] [] [] [] [] [] []]; reflexivity. Qed.

Lemma toLowerChar_isSpace x : QStr.isSpace (QStr.toLowerChar x) = QStr.isSpace x.
Proof. destruct x as [[] [] [] [] [] [] [] []]; reflexivity. Qed.

Lemma toLowerChar_idem x : QStr.toLowerChar (QStr.toLowerChar x) = QStr.toLowerChar x.
Proof. destruct x as [[] [] [] [] [] [] [] []]; reflexivity. Qed.

Lemma toLowerChar_digit x : QStr.digitValue (QStr.toLowerChar x) = QStr.digitValue x.
Proof. destruct x as [[] [] [] [] [] [] [] []]; reflexivity. Qed.

Lemma toLowerChar_plus x : Ascii.eqb (QStr.toLowerChar x) "+" = Ascii.eqb x "+".
Proof. destruct x as [[] [] [] [] [] [] [] []]; reflexivity. Qed.

Lemma toLowerChar_minus x : Ascii.eqb (QStr.toLowerChar x) "-" = Ascii.eqb x "-".
Proof. destruct x as [[] [] [] [] [] [] [] []]; reflexivity. Qed.

Lemma toLower_idem s : QStr.toLower (QStr.toLower s) = QStr.toLower s.
Proof. induction s as [|c s IH]; cbn; [reflexivity|]. rewrite toLowerChar_idem, IH. reflexivity. Qed.

Lemma toLower_list s :
  list_ascii_of_string (QStr.toLower s) = map QStr.toLowerChar (list_ascii_of_string s).
Proof. induction s as [|c s IH]; cbn; [reflexivity|]. rewrite IH. reflexivity. Qed.

Lemma toLower_of_list l :
  QStr.toLower (string_of_list_ascii l) = string_of_list_ascii (map QStr.toLowerChar l).
Proof. induction l as [|c l IH]; cbn; [reflexivity|]. rewrite IH. reflexivity. Qed.

Lemma splitKeep_toLower s :
  QStr.splitKeep (QStr.toLower s) = map QStr.toLower (QStr.splitKeep s).
Proof.
  induction s as [|c s IH]; [reflexivity|].
  cbn [QStr.toLower QStr.splitKeep]. rewrite toLowerChar_space, IH.
  destruct (Ascii.eqb c " "); [reflexivity|].
  destruct (QStr.splitKeep s) as [|w ws]; reflexivity.
Qed.

Lemma splitSkip_toLower s :
  QStr.splitSkip (QStr.toLower s) = map QStr.toLower (QStr.splitSkip s).
Proof.
  unfold QStr.splitSkip. rewrite splitKeep_toLower.
  induction (QStr.splitKeep s) as [|w ws IH]; [reflexivity|].
  cbn [map filter]. rewrite IH.
  destruct w; reflexivity.
Qed.

Lemma dropSpaces_map l :
  QStr.dropSpaces (map QStr.toLowerChar l) = map QStr.toLowerChar (QStr.dropSpaces l).
Proof.
  induction l as [|c l IH]; [reflexivity|].
  cbn [map QStr.dropSpaces]. rewrite toLowerChar_isSpace.
  destruct (QStr.isSpace c); [exact IH|reflexivity].
Qed.

Lemma trimmed_list_toLower s :
  list_ascii_of_string (QStr.trimmed (QStr.toLower s)) =
  map QStr.toLowerChar (list_ascii_of_string (QStr.trimmed s)).
Proof.
  unfold QStr.trimmed. rewrite !list_ascii_of_string_of_list_ascii, toLower_list.
  rewrite dropSpaces_map, <- map_rev, dropSpaces_map, <- map_rev. reflexivity.
Qed.

Lemma digitsValue_map acc l :
  QStr.digitsValue acc (map QStr.toLowerChar l) = QStr.digitsValue acc l.
Proof.
  revert acc. induction l as [|c l IH]; intro acc; [reflexivity|].
  cbn [map QStr.digitsValue]. rewrite toLowerChar_digit.
  destruct (QStr.digitValue c); [apply IH|reflexivity].
Qed.

Lemma unsignedValue_map l :
  QStr.unsignedValue (map QStr.toLowerChar l) = QStr.unsignedValue l.
Proof. destruct l; [reflexivity|]. apply digitsValue_map. Qed.

Lemma toInt_toLower s : QStr.toInt (QStr.toLower s) = QStr.toInt s.
Proof.
  unfold QStr.toInt. rewrite trimmed_list_toLower.
  destruct (list_ascii_of_string (QStr.trimmed s)) as [|c r]; [reflexivity|].
  cbn [map]. rewrite toLowerChar_plus, toLowerChar_minus, !unsignedValue_map.
  change (QStr.toLowerChar c :: map QStr.toLowerChar r) with (map QStr.toLowerChar (c :: r)).
  rewrite unsignedValue_map. reflexivity.
Qed.

End CaseFacts.

Module DecimalFacts.

Lemma digitsValue_dot acc l : In "."%char l -> QStr.digitsValue acc l = None.
Proof.
  revert acc. induction l as [|c l IH]; intros acc H; [destruct H|].
  destruct H as [->|H]; [reflexivity|].
  cbn [QStr.digitsValue]. destruct (QStr.digitValue c); [apply IH; exact H|reflexivity].
Qed.

Lemma dropSpaces_In c l : QStr.isSpace c = false -> In c l -> In c (QStr.dropSpaces l).
Proof.
  intro Hc. induction l as [|x l IH]; intro H; [destruct H|].
  cbn [QStr.dropSpaces]. destruct (QStr.isSpace x) eqn:Hx.
  - destruct H as [<-|H]; [congruence|]. apply IH. exact H.
  - exact H.
Qed.

Lemma trimmed_In c s :
  QStr.isSpace c = false -> In c (list_ascii_of_string s) ->
  In c (list_ascii_of_string (QStr.trimmed s)).
Proof.
  intros Hc H. unfold QStr.trimmed. rewrite list_ascii_of_string_of_list_ascii.
  apply in_rev. rewrite rev_involutive. apply dropSpaces_In; [exact Hc|].
  apply in_rev. rewrite rev_involutive. apply dropSpaces_In; [exact Hc|exact H].
Qed.

Lemma toInt_dot s : In "."%char (list_ascii_of_string s) -> QStr.toInt s = None.
Proof.
  intro H. apply trimmed_In in H; [|reflexivity].
  unfold QStr.toInt. destruct (list_ascii_of_string (QStr.trimmed s)) as [|c r]; [reflexivity|].
  unfold QStr.unsignedValue.
  destruct (Ascii.eqb c "+") eqn:Ep.
  - apply Ascii.eqb_eq in Ep. subst c. destruct H as [H|H]; [discriminate|].
    destruct r; [destruct H|]. rewrite digitsValue_dot by exact H. reflexivity.
  - destruct (Ascii.eqb c "-") eqn:Em.
    + apply Ascii.eqb_eq in Em. subst c. destruct H as [H|H]; [discriminate|].
      destruct r; [destruct H|]. rewrite digitsValue_dot by exact H. reflexivity.
    + rewrite digitsValue_dot by exact H. reflexivity.
Qed.

(** A character other than the separator lands in one of the parts. *)
Lemma splitSkip_In c s :
  c <> " "%char -> In c (list_ascii_of_string s) ->
  exists w, In w (QStr.splitSkip s) /\ In c (list_ascii_of_string w).
Proof.
  intro Hc. induction s as [|x s IH]; intro H; [destruct H|].
  unfold QStr.splitSkip in *. cbn [QStr.splitKeep]. cbn [list_ascii_of_string] in H.
  destruct (Ascii.eqb x " ") eqn:Ex.
  - apply Ascii.eqb_eq in Ex. subst x. destruct H as [H|H]; [congruence|].
    cbn [filter]. apply IH. exact H.
  - destruct (QStr.splitKeep s) as [|w ws] eqn:Hs.
    + exfalso. destruct s as [|y s']; cbn in Hs; [discriminate|].
      destruct (Ascii.eqb y " "); [discriminate|]. destruct (QStr.splitKeep s'); discriminate.
    + destruct H as [->|H].
      * exists (String c w). split; [|left; reflexivity].
        cbn. left; reflexivity.
      * destruct (IH H) as [w0 [Hw0 Hcw0]].
        cbn [filter] in Hw0 |- *.
        destruct (negb (QStr.isEmpty w)) eqn:Ew.
        -- destruct Hw0 as [<-|Hw0].
           ++ exists (String x w). split; [left; reflexivity|right; exact Hcw0].
           ++ exists w0. split; [right; exact Hw0|exact Hcw0].
        -- unfold QStr.isEmpty in Ew. apply negb_false_iff, String.eqb_eq in Ew. subst w.
           exists w0. split; [right; exact Hw0|exact Hcw0].
Qed.

End DecimalFacts.

Module SearchFacts.


End SearchFacts.

Module SuggestionUniverse.

(** Every string [getContextualSuggestions] can return. *)
Definition universe : list string :=
  Registry.getAllCommands ++
  map (fun o => "summarise" ++ " " ++ o) ["10"; "25"; "50"; "75"] ++
  map (fun o => "tone" ++ " " ++ o) ["formal"; "casual"; "playful"] ++
  map (fun o => "font" ++ " " ++ o) ["Arial"; "Calibri"; "Georgia"; "Verdana"] ++
  map (fun o => "highlight" ++ " " ++ o) ["keywords"; "grammar"].

Lemma In_firstn_cap (x : string) l :
  In x (if (3 <? List.length l)%nat then firstn 3 l else l) -> In x l.
Proof.
  destruct (3 <? List.length l)%nat; [|exact id].
  intro H. rewrite <- (firstn_skipn 3 l). apply in_or_app. left. exact H.
Qed.

Lemma optionSuggestions_In s name arg ci options :
  In s (Registry.optionSuggestions name arg ci options) ->
  exists o, In o options /\ s = name ++ " " ++ o.
Proof.
  unfold Registry.optionSuggestions. intro H. apply in_map_iff in H as [o [<- Ho]].
  apply filter_In in Ho as [Ho _]. exists o. split; [exact Ho|reflexivity].
Qed.

Lemma suggestions_in_universe input s :
  In s (Registry.getContextualSuggestions input) -> In s universe.
Proof.
  unfold Registry.getContextualSuggestions, universe.
  destruct (QStr.isEmpty (QStr.trimmed input)).
  { intro H. apply in_or_app. left. cbn in H |- *. intuition. }
  destruct (QStr.splitKeep (QStr.trimmed input)) as [|p0 [|p1 rest]].
  - intros [].
  - intro H. apply In_firstn_cap in H. apply filter_In in H as [H _].
    apply in_or_app. left. exact H.
  - set (name := QStr.toLower p0).
    destruct (String.eqb name "summarise") eqn:E1.
    { apply String.eqb_eq in E1. rewrite E1. intro H.
      apply optionSuggestions_In in H as [o [Ho ->]].
      apply in_or_app; right. apply in_or_app; left. apply in_map_iff; exists o; split; [reflexivity|exact Ho]. }
    destruct (String.eqb name "tone") eqn:E2.
    { apply String.eqb_eq in E2. rewrite E2. intro H.
      apply optionSuggestions_In in H as [o [Ho ->]].
      do 2 (apply in_or_app; right). apply in_or_app; left. apply in_map_iff; exists o; split; [reflexivity|exact Ho]. }
    destruct (String.eqb name "font") eqn:E3.
    { apply String.eqb_eq in E3. rewrite E3. intro H.
      apply optionSuggestions_In in H as [o [Ho ->]].
      do 3 (apply in_or_app; right). apply in_or_app; left. apply in_map_iff; exists o; split; [reflexivity|exact Ho]. }
    destruct (String.eqb name "highlight") eqn:E4.
    { apply String.eqb_eq in E4. rewrite E4. intro H.
      apply optionSuggestions_In in H as [o [Ho ->]].
      do 4 (apply in_or_app; right). apply in_map_iff; exists o; split; [reflexivity|exact Ho]. }
    destruct (existsb (String.eqb name) Registry.getAllCommands) eqn:E5; [|intros []].
    intros [<-|[]]. apply in_or_app. left.
    apply existsb_exists in E5 as [c [Hc Ec]]. apply String.eqb_eq in Ec. subst c. exact Hc.
Qed.

Definition firstWord (s : string) : string := hd "" (QStr.splitSkip s).

Definition accepted (s : string) : bool :=
  match CM.parseCommandWithArgs s with Some _ => true | None => false end.

Lemma universe_check :
  forallb (fun s => Bool.eqb (accepted s)
                      (negb (existsb (String.eqb (firstWord s)) ["font"; "highlight"])))
    universe = true.
Proof. vm_compute. reflexivity. Qed.

End SuggestionUniverse.

Module TokenFacts.

Lemma dropSpaces_head l c r : QStr.dropSpaces l = c :: r -> QStr.isSpace c = false.
Proof.
  induction l as [|x l IH]; cbn; [discriminate|].
  destruct (QStr.isSpace x) eqn:Ex; [exact IH|]. intro H. injection H as <- _. exact Ex.
Qed.

Lemma dropSpaces_snoc l c :
  QStr.isSpace c = false -> QStr.dropSpaces (l ++ [c]) = (QStr.dropSpaces l ++ [c])%list.
Proof.
  intro Hc. induction l as [|x l IH]; cbn; [rewrite Hc; reflexivity|].
  destruct (QStr.isSpace x); [exact IH|reflexivity].
Qed.

(** [QString::trimmed] leaves no white space at either end. *)
Lemma trimmed_edges s :
  let l := list_ascii_of_string (QStr.trimmed s) in
  (forall c r, l = c :: r -> QStr.isSpace c = false) /\
  (forall c r, rev l = c :: r -> QStr.isSpace c = false).
Proof.
  cbv zeta. unfold QStr.trimmed. rewrite list_ascii_of_string_of_list_ascii.
  destruct (QStr.dropSpaces (list_ascii_of_string s)) as [|x X] eqn:HX.
  - cbn. split; intros c r H; discriminate.
  - assert (Hx : QStr.isSpace x = false) by exact (dropSpaces_head _ _ _ HX).
    cbn [rev]. rewrite (dropSpaces_snoc _ _ Hx), rev_app_distr. cbn [rev app].
    split.
    + intros c r H. injection H as <- _. exact Hx.
    + intros c r H. rewrite rev_involutive in H.
      destruct (QStr.dropSpaces (rev X)) as [|y Y] eqn:HD; cbn in H; injection H as <- _.
      * exact Hx.
      * exact (dropSpaces_head _ _ _ HD).
Qed.

Lemma string_of_list_app a x b :
  string_of_list_ascii (a ++ x :: b) = string_of_list_ascii a ++ String x (string_of_list_ascii b).
Proof. induction a as [|y a IH]; cbn; [reflexivity|]. rewrite IH. reflexivity. Qed.

Lemma splitKeep_cons s : exists w ws, QStr.splitKeep s = w :: ws.
Proof.
  destruct s as [|c s]; cbn; [eexists; eexists; reflexivity|].
  destruct (Ascii.eqb c " "); [eexists; eexists; reflexivity|].
  destruct (QStr.splitKeep s); eexists; eexists; reflexivity.
Qed.

Lemma splitKeep_sep a b :
  QStr.splitKeep (a ++ String " " b) = (QStr.splitKeep a ++ QStr.splitKeep b)%list.
Proof.
  induction a as [|c a IH]; [reflexivity|].
  cbn [append QStr.splitKeep]. rewrite IH.
  destruct (Ascii.eqb c " "); [reflexivity|].
  destruct (splitKeep_cons a) as [w [ws ->]]. reflexivity.
Qed.

Lemma splitSkip_sep a b :
  QStr.splitSkip (a ++ String " " b) = (QStr.splitSkip a ++ QStr.splitSkip b)%list.
Proof. unfold QStr.splitSkip. rewrite splitKeep_sep. apply filter_app. Qed.

Lemma splitSkip_nonnil c s :
  QStr.isSpace c = false -> In c (list_ascii_of_string s) -> QStr.splitSkip s <> [].
Proof.
  intros Hc H. assert (Hn : c <> " "%char) by (intro E; subst c; discriminate).
  destruct (DecimalFacts.splitSkip_In c s Hn H) as [w [Hw _]].
  destruct (QStr.splitSkip s); [destruct Hw|discriminate].
Qed.

Lemma noSpace_splitSkip t :
  t <> "" -> ~ In " "%char (list_ascii_of_string t) -> QStr.splitSkip t = [t].
Proof.
  intros Hne Hn. unfold QStr.splitSkip. rewrite SuggestFacts.splitKeep_no_space.
  - cbn. unfold QStr.isEmpty. replace (String.eqb t "") with false
      by (symmetry; apply String.eqb_neq; exact Hne). reflexivity.
  - unfold SuggestFacts.noSpaceChar. apply forallb_forall. intros x Hx.
    destruct (Ascii.eqb x " ") eqn:E; [|reflexivity].
    apply Ascii.eqb_eq in E. subst x. contradiction.
Qed.

Lemma single_token s :
  ((List.length (QStr.splitSkip (QStr.trimmed s)) =? 1)%nat
   && negb (QStr.isEmpty (QStr.trimmed s))) = true <->
  QStr.trimmed s <> "" /\ ~ In " "%char (list_ascii_of_string (QStr.trimmed s)).
Proof.
  set (t := QStr.trimmed s).
  destruct (String.eqb t "") eqn:Et.
  - apply String.eqb_eq in Et. unfold QStr.isEmpty. rewrite Et. cbn.
    split; [discriminate|]. intros [H _]. contradiction.
  - apply String.eqb_neq in Et. unfold QStr.isEmpty.
    replace (String.eqb t "") with false by (symmetry; apply String.eqb_neq; exact Et).
    rewrite andb_true_r. rewrite Nat.eqb_eq.
    destruct (in_dec ascii_dec " "%char (list_ascii_of_string t)) as [Hin|Hn].
    + split; [|intros [_ N]; contradiction]. intro Hlen. exfalso.
      destruct (trimmed_edges s) as [Hhead Hlast]. fold t in Hhead, Hlast.
      apply in_split in Hin as [a [b Hab]].
      destruct a as [|c a].
      { cbn in Hab. specialize (Hhead _ _ Hab). discriminate. }
      destruct (rev b) as [|d rb] eqn:Hb.
      { apply (f_equal (@rev ascii)) in Hab. rewrite rev_app_distr in Hab. cbn [rev] in Hab.
        rewrite Hb in Hab. cbn in Hab. specialize (Hlast _ _ Hab). discriminate. }
      assert (Hd : QStr.isSpace d = false).
      { apply (Hlast d (rb ++ " "%char :: rev (c :: a))%list). rewrite Hab, rev_app_distr.
        cbn [rev]. rewrite Hb. cbn. rewrite <- !app_assoc. reflexivity. }
      assert (Hc : QStr.isSpace c = false) by exact (Hhead _ _ Hab).
      assert (Ht : t = string_of_list_ascii (c :: a) ++ String " " (string_of_list_ascii b)).
      { rewrite <- string_of_list_app, <- Hab. symmetry. apply string_of_list_ascii_of_string. }
      rewrite Ht, splitSkip_sep, length_app in Hlen.
      assert (H1 : QStr.splitSkip (string_of_list_ascii (c :: a)) <> []).
      { apply (splitSkip_nonnil c); [exact Hc|].
        rewrite list_ascii_of_string_of_list_ascii. left. reflexivity. }
      assert (H2 : QStr.splitSkip (string_of_list_ascii b) <> []).
      { apply (splitSkip_nonnil d); [exact Hd|].
        rewrite list_ascii_of_string_of_list_ascii. apply in_rev. rewrite Hb. left. reflexivity. }
      destruct (QStr.splitSkip (string_of_list_ascii (c :: a))); [contradiction|].
      destruct (QStr.splitSkip (string_of_list_ascii b)); [contradiction|].
      cbn in Hlen. lia.
    + rewrite (noSpace_splitSkip t Et Hn). cbn. split; [intros _; split; assumption|reflexivity].
Qed.

End TokenFacts.

Definition errorRun : list Engine.Input :=
  Engine.StartMonitoring :: repeat (Engine.HealthCheckFinished (Some "Connection refused")) 15.

Definition connectedRun : list Engine.Input :=
  [Engine.StartMonitoring; Engine.HealthCheckFinished None].

Definition pendingRun : list Engine.Input :=
  [Engine.StartMonitoring; Engine.HealthCheckFinished None;
   Engine.ExecuteCommand "tone formal" "Hello there." 0].

(** The parser only ever returns a base command that is a key of the command
    table, and only "summarise" comes with structured arguments. *)
Theorem parse_base_is_command (command baseCommand : string) (args : Json.object) :
  CM.parseCommandWithArgs command = Some (baseCommand, args) ->
  CM.containsCommand baseCommand = true /\ (baseCommand <> "summarise" -> args = []).
Proof. apply CommandFacts.parse_some_contains. Qed.

Lemma parse_base_is_command_witness :
  CM.parseCommandWithArgs "Rewrite  this please" = Some ("rewrite", []) /\
  CM.containsCommand "rewrite" = true /\ ("rewrite" <> "summarise" -> @nil (string * Json.value) = []).
Proof.
  split; [vm_compute; reflexivity|].
  apply (parse_base_is_command "Rewrite  this please"). vm_compute. reflexivity.
Defined.

(** After a command other than "summarise" any further words are dropped:
    the parser accepts them and returns no arguments (so "tone formal" sends
    no style to the backend). *)
Theorem parse_ignores_extra_words (k rest : string) :
  In k ["clear"; "help"; "keywords"; "rephrase"; "rewrite"; "tone"] ->
  CM.parseCommandWithArgs (k ++ " " ++ rest) = Some (k, []).
Proof.
  intros [<-|[<-|[<-|[<-|[<-|[<-|[]]]]]]]; reflexivity.
Qed.

Lemma parse_ignores_extra_words_witness :
  CM.parseCommandWithArgs ("tone" ++ " " ++ "formal") = Some ("tone", []).
Proof. apply parse_ignores_extra_words. cbn. tauto. Defined.

(** [isCommandValid] accepts exactly the strings [parseCommandWithArgs]
    accepts; its direct key lookup adds nothing. *)
Theorem isCommandValid_is_parse (command : string) :
  Queries.isCommandValid command =
  match CM.parseCommandWithArgs command with Some _ => true | None => false end.
Proof.
  unfold Queries.isCommandValid.
  destruct (CM.containsCommand command) eqn:Hc.
  - apply CommandFacts.containsCommand_In in Hc.
    cbn in Hc. repeat destruct Hc as [<-|Hc]; try reflexivity. destruct Hc.
  - destruct (CM.parseCommandWithArgs command) as [[b a]|] eqn:Hp; [|reflexivity].
    exact (proj1 (CommandFacts.parse_some_contains _ _ _ Hp)).
Qed.

(** Parsing is case-insensitive: lowercasing the whole command changes
    neither the verdict nor the base command nor the arguments. *)
Theorem parse_case_insensitive (command : string) :
  CM.parseCommandWithArgs (QStr.toLower command) = CM.parseCommandWithArgs command.
Proof.
  unfold CM.parseCommandWithArgs. rewrite CaseFacts.splitSkip_toLower.
  destruct (QStr.splitSkip command) as [|p0 rest]; [reflexivity|].
  cbn [map]. rewrite CaseFacts.toLower_idem.
  destruct (String.eqb (QStr.toLower p0) "summarise" || String.eqb (QStr.toLower p0) "summarize");
    [|reflexivity].
  destruct rest as [|p1 [|p2 r]]; cbn [map]; [reflexivity| |reflexivity].
  rewrite CaseFacts.toInt_toLower. reflexivity.
Qed.

(** Any argument with a decimal point after "summarise" is rejected (as
    [QString::toInt] reads no fractional numbers), e.g. "summarise 0.3"
    from the registry's usage text. *)
Theorem summarise_rejects_decimal_argument (arg : string) :
  In "."%char (list_ascii_of_string arg) ->
  CM.parseCommandWithArgs ("summarise " ++ arg) = None.
Proof.
  intro H. rewrite ParseFacts.parse_summarise_tokens.
  destruct (DecimalFacts.splitSkip_In "."%char arg ltac:(discriminate) H) as [w [Hw Hd]].
  destruct (QStr.splitSkip arg) as [|a [|b r]]; [destruct Hw| |reflexivity].
  destruct Hw as [->|[]]. rewrite (DecimalFacts.toInt_dot w Hd). reflexivity.
Qed.

Lemma summarise_rejects_decimal_argument_witness :
  In "."%char (list_ascii_of_string "0.3") /\
  CM.parseCommandWithArgs ("summarise " ++ "0.3") = None.
Proof.
  assert (H : In "."%char (list_ascii_of_string "0.3")) by (simpl; auto).
  split; [exact H|]. exact (summarise_rejects_decimal_argument "0.3" H).
Defined.


(** Every suggestion [getContextualSuggestions] offers is accepted by the
    parser, except exactly those whose first word is "font" or "highlight",
    which the command table does not know. *)
Theorem suggestions_parse_unless_font_or_highlight (input s : string) :
  In s (Registry.getContextualSuggestions input) ->
  (CM.parseCommandWithArgs s <> None <->
   ~ In (hd "" (QStr.splitSkip s)) ["font"; "highlight"]).
Proof.
  intro H. apply SuggestionUniverse.suggestions_in_universe in H.
  pose proof SuggestionUniverse.universe_check as C. rewrite forallb_forall in C.
  specialize (C s H). apply Bool.eqb_prop in C.
  unfold SuggestionUniverse.accepted, SuggestionUniverse.firstWord in C.
  destruct (existsb (String.eqb (hd "" (QStr.splitSkip s))) ["font"; "highlight"]) eqn:E;
    destruct (CM.parseCommandWithArgs s); cbn in C; try discriminate.
  - split; [intro N; contradiction|]. intro N. exfalso. apply N.
    apply existsb_exists in E as [c [Hc Ec]]. apply String.eqb_eq in Ec. rewrite Ec. exact Hc.
  - split; [|intros _; discriminate]. intros _ Hin.
    assert (existsb (String.eqb (hd "" (QStr.splitSkip s))) ["font"; "highlight"] = true)
      by (apply existsb_exists; exists (hd "" (QStr.splitSkip s)); split; [exact Hin|apply String.eqb_refl]).
    congruence.
Qed.

Lemma suggestions_parse_unless_font_or_highlight_witness :
  Registry.getContextualSuggestions "fo" = ["font"] /\
  (CM.parseCommandWithArgs "font" <> None <-> ~ In "font" ["font"; "highlight"]).
Proof.
  assert (H : Registry.getContextualSuggestions "fo" = ["font"]) by (vm_compute; reflexivity).
  split; [exact H|].
  apply (suggestions_parse_unless_font_or_highlight "fo" "font"). rewrite H. left. reflexivity.
Defined.

(** [getSuggestions] first hands the local contextual suggestions to the
    callback and the signal; it posts a fuzzy-search request exactly when
    the server is ready and the trimmed query is one non-empty word, and the
    request carries the raw query and the registry's seven names. *)
Theorem getSuggestions_search_request (serverReady : bool) (query : string) :
  let ev := Queries.getSuggestions serverReady query in
  let local := Registry.getContextualSuggestions query in
  firstn 2 ev = [Queries.SuggestionsCallback local; Queries.SuggestionsAvailable query local] /\
  ((exists url data, In (Queries.SearchPost url data) ev) <->
   serverReady = true /\ QStr.trimmed query <> "" /\
   ~ In " "%char (list_ascii_of_string (QStr.trimmed query))) /\
  (forall url data, In (Queries.SearchPost url data) ev ->
     url = "http://127.0.0.1:5000/api/search" /\
     Json.lookup "query" data = Some (Json.Str query) /\
     Json.lookup "choices" data = Some (Json.Array (map Json.Str Registry.getAllCommands))).
Proof.
  intros ev local. unfold ev, Queries.getSuggestions. cbv zeta. fold local.
  rewrite <- andb_assoc.
  pose proof (TokenFacts.single_token query) as T.
  split; [reflexivity|]. split.
  - destruct (serverReady && _) eqn:B.
    + apply andb_true_iff in B as [-> B]. apply T in B.
      split; [intros _; split; [reflexivity|exact B]|].
      intros _. do 2 eexists. right. right. left. reflexivity.
    + split.
      * intros [url [data [H|[H|[]]]]]; discriminate.
      * intros [-> H]. apply T in H. cbn in B. congruence.
  - intros url data H. destruct (serverReady && _); cbn in H; [|intuition discriminate].
    destruct H as [H|[H|[H|[]]]]; try discriminate.
    injection H as <- <-. split; [reflexivity|]. split; reflexivity.
Qed.

Lemma getSuggestions_search_request_witness :
  Queries.getSuggestions true "  re " =
  [Queries.SuggestionsCallback ["rephrase"; "rewrite"];
   Queries.SuggestionsAvailable "  re " ["rephrase"; "rewrite"];
   Queries.SearchPost "http://127.0.0.1:5000/api/search"
     [("query", Json.Str "  re "); ("choices", Json.Array (map Json.Str Registry.getAllCommands))]] /\
  (forall url data, In (Queries.SearchPost url data) (Queries.getSuggestions false "tone fo") -> False).
Proof.
  split; [vm_compute; reflexivity|].
  intros url data H.
  destruct (proj1 (proj1 (proj2 (getSuggestions_search_request false "tone fo")))
              (ex_intro _ url (ex_intro _ data H))) as [B _].
  discriminate.
Defined.

(** The "help" text lists the available commands, each with the check
    mark: the cross-mark branch is never taken. *)
Theorem help_lists_available_commands (st : Engine.Sys) (inputText : string) :
  let line := fun cmd =>
    Engine.checkIcon ++ " " ++ cmd ++ " - " ++ CM.description (CM.getCommandInfo cmd) in
  let text := String.concat Engine.nl
    ("Available Commands:" :: "" :: map line (Engine.availableCommands st)) in
  Engine.executeLocalCommand "help" inputText st =
  (tt, Engine.setExecutionState CM.Idle st,
   [Engine.ExecutionStateChanged CM.Idle; Engine.Callback CM.Success text;
    Engine.CommandExecuted "help" CM.Success text]).
Proof.
  intros line text. unfold Engine.executeLocalCommand, Engine.wrappedCallback.
  unfold Engine.bind, Engine.ret, Engine.get, Engine.modify, Engine.emit. cbn -[String.concat map].
  unfold text, line. do 4 f_equal.
  - f_equal. f_equal. f_equal. apply map_ext_in. intros cmd Hin.
    replace (existsb (String.eqb cmd) (Engine.availableCommands st)) with true; [reflexivity|].
    symmetry. apply existsb_exists. exists cmd. split; [exact Hin|]. apply String.eqb_refl.
  - f_equal. f_equal. f_equal. f_equal. apply map_ext_in. intros cmd Hin.
    replace (existsb (String.eqb cmd) (Engine.availableCommands st)) with true; [reflexivity|].
    symmetry. apply existsb_exists. exists cmd. split; [exact Hin|]. apply String.eqb_refl.
Qed.

(** In every reachable state the dispatcher offers all seven commands when
    Connected and only "clear" and "help" otherwise. *)
Theorem reachable_available_commands nf (s : Engine.Sys) :
  Engine.reachable nf s ->
  Engine.availableCommands s =
  if Engine.isReady s
  then ["clear"; "help"; "keywords"; "rephrase"; "rewrite"; "summarise"; "tone"]
  else ["clear"; "help"].
Proof.
  intro H. rewrite (EngineFacts.inv_available _ (EngineFacts.reachable_inv nf s H)).
  destruct (Engine.isReady s); reflexivity.
Qed.

(** In every reachable state the dispatcher is Executing exactly when a
    command request is waiting for its reply. *)
Theorem reachable_executing_iff_pending nf (s : Engine.Sys) :
  Engine.reachable nf s ->
  (Engine.executionState s = CM.Executing <-> Engine.inflight s <> None).
Proof.
  intro H. pose proof (EngineFacts.inv_gate _ (EngineFacts.reachable_inv nf s H)) as G.
  destruct (Engine.executionState s), (Engine.inflight s); try contradiction;
    split; congruence.
Qed.

(** In every reachable state the failure counter is non-negative, and
    while Connected it stays below MAX_RETRY_ATTEMPTS. *)
Theorem reachable_failure_counter_bounds nf (s : Engine.Sys) :
  Engine.reachable nf s ->
  (0 <= Engine.consecutiveFailures s)%Z /\
  (Engine.currentStatus s = Engine.Connected ->
   (Engine.consecutiveFailures s < Engine.MAX_RETRY_ATTEMPTS)%Z).
Proof.
  intros [tr <-]. apply CounterFacts.counter_run. split; [cbn; lia | discriminate].
Qed.

(** Dispatching a command never changes the connectivity status, the
    failure counter or the list of available commands. *)
Theorem executeCommand_keeps_connectivity command inputText now (st : Engine.Sys) :
  let st' := Engine.stateOf (Engine.executeCommand command inputText now st) in
  Engine.currentStatus st' = Engine.currentStatus st /\
  Engine.consecutiveFailures st' = Engine.consecutiveFailures st /\
  Engine.availableCommands st' = Engine.availableCommands st.
Proof. apply CommandFacts.executeCommand_connectivity. Qed.

(** A valid, available server command with non-blank input, dispatched at
    Idle while Connected, closes the gate and posts one request to
    /api/<base command> whose body is the parsed arguments plus "text" and
    "timestamp". *)
Theorem server_command_request command inputText now (st : Engine.Sys) baseCommand args :
  Engine.executionState st = CM.Idle ->
  Engine.currentStatus st = Engine.Connected ->
  CM.parseCommandWithArgs command = Some (baseCommand, args) ->
  existsb (String.eqb baseCommand) (Engine.availableCommands st) = true ->
  CM.requiresServer (CM.getCommandInfo baseCommand) = true ->
  QStr.isEmpty (QStr.trimmed inputText) = false ->
  Engine.executeCommand command inputText now st =
  (tt, Engine.setInflight (Some (Engine.mkPending command baseCommand))
         (Engine.setExecutionState CM.Executing st),
   [Engine.ExecutionStateChanged CM.Executing;
    Engine.Post (Engine.SERVER_BASE_URL ++ "/api/" ++ baseCommand)
      (Json.insert "timestamp" (Json.Integer now)
         (Json.insert "text" (Json.Str inputText) args))]).
Proof.
  intros Hx Hc Hp Ha Hs Ht.
  unfold Engine.executeCommand. unfold Engine.bind, Engine.ret, Engine.get, Engine.modify, Engine.emit.
  cbn -[CM.parseCommandWithArgs Engine.executeServerCommand Engine.executeLocalCommand
        Engine.failEarly existsb QStr.isEmpty QStr.trimmed CM.getCommandInfo].
  rewrite Hx, Hp. cbn -[CM.parseCommandWithArgs Engine.executeServerCommand
        Engine.executeLocalCommand Engine.failEarly existsb QStr.isEmpty QStr.trimmed CM.getCommandInfo].
  destruct st as [cs cf av ex fl]. cbn in Hc, Ha |- *. rewrite Ha, Ht, Hs, andb_false_r.
  unfold Engine.executeServerCommand. rewrite Hp. cbn [negb]. rewrite EngineFacts.makeRequest_spec.
  cbn. subst cs. reflexivity.
Qed.

Lemma server_command_request_witness :
  let st := Engine.mkSys Engine.Connected 0 (CM.availableFor true) CM.Idle None in
  Engine.executeCommand "summarise 40" "Some text." 1700000000 st =
  (tt, Engine.setInflight (Some (Engine.mkPending "summarise 40" "summarise"))
         (Engine.setExecutionState CM.Executing st),
   [Engine.ExecutionStateChanged CM.Executing;
    Engine.Post (Engine.SERVER_BASE_URL ++ "/api/" ++ "summarise")
      (Json.insert "timestamp" (Json.Integer 1700000000)
         (Json.insert "text" (Json.Str "Some text.") (ParseFacts.codeArgs 40)))]).
Proof.
  intro st. apply server_command_request; vm_compute; reflexivity.
Defined.



(** In every reachable Idle state "clear" succeeds at once with
    "Input cleared", whatever the server status and input. *)
Theorem clear_always_succeeds nf (s : Engine.Sys) inputText now :
  Engine.reachable nf s -> Engine.executionState s = CM.Idle ->
  Engine.executeCommand "clear" inputText now s =
  (tt, s,
   [Engine.ExecutionStateChanged CM.Executing; Engine.ExecutionStateChanged CM.Idle;
    Engine.Callback CM.Success "Input cleared";
    Engine.CommandExecuted "clear" CM.Success "Input cleared"]).
Proof.
  intros Hr Hx.
  pose proof (EngineFacts.inv_available _ (EngineFacts.reachable_inv nf s Hr)) as Ha.
  destruct s as [cs cf av ex fl]. unfold Engine.isReady in Ha. cbn in Hx, Ha. subst ex av.
  unfold Engine.executeCommand. unfold Engine.bind, Engine.ret, Engine.get, Engine.modify, Engine.emit.
  destruct (Engine.statusEqb cs Engine.Connected); reflexivity.
Qed.

Lemma clear_always_succeeds_witness :
  Engine.reachable noNumberFormat Engine.initial /\
  Engine.executeCommand "clear" "" 0 Engine.initial =
  (tt, Engine.initial,
   [Engine.ExecutionStateChanged CM.Executing; Engine.ExecutionStateChanged CM.Idle;
    Engine.Callback CM.Success "Input cleared";
    Engine.CommandExecuted "clear" CM.Success "Input cleared"]).
Proof.
  assert (Hr : Engine.reachable noNumberFormat Engine.initial) by (exists []; reflexivity).
  split; [exact Hr|]. apply (clear_always_succeeds noNumberFormat); [exact Hr | reflexivity].
Defined.

(** For commands other than "summarise" the formatted reply is never empty:
    a non-empty string "result" is returned as is, and with neither a
    "result" nor an "output" string the generic success text is used. *)
Theorem format_other_commands_nonempty nf command (response : Json.object) :
  command <> "summarise" ->
  Engine.formatServerResponse nf command response <> "" /\
  (forall r, Json.lookup "result" response = Some (Json.Str r) -> r <> "" ->
     Engine.formatServerResponse nf command response = r) /\
  (Json.toString (Json.lookup "result" response) = "" ->
   Json.toString (Json.lookup "output" response) = "" ->
   Engine.formatServerResponse nf command response =
   "Command '" ++ command ++ "' executed successfully").
Proof.
  intro Hn. unfold Engine.formatServerResponse.
  replace (String.eqb command "summarise") with false
    by (symmetry; apply String.eqb_neq; exact Hn).
  unfold QStr.isEmpty. split; [|split].
  - match goal with |- (if ?b then _ else ?x) <> _ =>
      destruct b eqn:E; [discriminate | apply String.eqb_neq; exact E] end.
  - intros r Hr Hne. rewrite Hr. cbn [Json.toString].
    assert (E : String.eqb r "" = false) by (apply String.eqb_neq; exact Hne).
    rewrite E. cbv iota. rewrite E. reflexivity.
  - intros E1 E2. rewrite E1, E2. reflexivity.
Qed.

Lemma format_other_commands_nonempty_witness :
  Engine.formatServerResponse noNumberFormat "tone"
    [("output", Json.Str "Formal text."); ("result", Json.Integer 3)] <> "".
Proof.
  apply (format_other_commands_nonempty noNumberFormat "tone"). discriminate.
Defined.

(** [setStatus v] leaves the status at v, a second call is a no-op without
    signals, [statusChanged] is emitted exactly on a real change, and
    [serverReady] exactly on entering Connected. *)
Theorem setStatus_signals v (st : Engine.Sys) :
  let r := Engine.setStatus v st in
  Engine.currentStatus (Engine.stateOf r) = v /\
  Engine.setStatus v (Engine.stateOf r) = (tt, Engine.stateOf r, []) /\
  (In (Engine.StatusChanged v) (Engine.eventsOf r) <-> Engine.currentStatus st <> v) /\
  (In Engine.ServerReady (Engine.eventsOf r) <->
   v = Engine.Connected /\ Engine.currentStatus st <> Engine.Connected).
Proof.
  intro r. unfold r. rewrite EngineFacts.setStatus_spec. unfold Engine.stateOf, Engine.eventsOf.
  cbn [fst snd].
  assert (Hs : Engine.statusEqb (Engine.currentStatus (EngineFacts.setStatusState v st)) v = true)
    by (rewrite CounterFacts.setStatusState_status; apply EngineFacts.statusEqb_refl).
  split; [apply CounterFacts.setStatusState_status|]. split.
  { rewrite EngineFacts.setStatus_spec. unfold EngineFacts.setStatusEvents.
    rewrite Hs. unfold EngineFacts.setStatusState at 1. rewrite Hs. reflexivity. }
  unfold EngineFacts.setStatusEvents.
  destruct st as [cs cf av ex fl]; cbn [Engine.currentStatus].
  destruct cs, v; cbn; intuition congruence.
Qed.

(** Restarting health monitoring from Error moves to Connecting without
    resetting the failure counter, so one more failed probe returns to
    Error. *)
Theorem restart_after_error_fails_fast nf (s : Engine.Sys) (es : string) :
  Engine.reachable nf s -> Engine.currentStatus s = Engine.Error ->
  let s1 := Engine.stateOf (Engine.startHealthMonitoring s) in
  Engine.currentStatus s1 = Engine.Connecting /\
  Engine.consecutiveFailures s1 = Engine.consecutiveFailures s /\
  Engine.currentStatus (Engine.stateOf (Engine.handleHealthCheckResponse (Some es) s1)) =
  Engine.Error.
Proof.
  intros Hr He s1.
  pose proof (EngineFacts.inv_error _ (EngineFacts.reachable_inv nf s Hr) He) as Hc.
  assert (E1 : s1 = EngineFacts.setStatusState Engine.Connecting s)
    by (unfold s1; rewrite EngineFacts.start_spec; reflexivity).
  assert (Hf : Engine.consecutiveFailures s1 = Engine.consecutiveFailures s).
  { rewrite E1, CounterFacts.setStatusState_failures, He. reflexivity. }
  split; [rewrite E1; apply CounterFacts.setStatusState_status|].
  split; [exact Hf|].
  rewrite EngineFacts.probe_spec. apply ProbeFacts.probeState_fail_ceiling.
  rewrite Hf. lia.
Qed.

Lemma restart_after_error_fails_fast_witness :
  let s := Engine.stateOf (Engine.run noNumberFormat errorRun Engine.initial) in
  Engine.reachable noNumberFormat s /\ Engine.currentStatus s = Engine.Error /\
  Engine.currentStatus (Engine.stateOf (Engine.handleHealthCheckResponse (Some "timeout")
    (Engine.stateOf (Engine.startHealthMonitoring s)))) = Engine.Error.
Proof.
  intro s.
  assert (Hr : Engine.reachable noNumberFormat s) by (exists errorRun; reflexivity).
  assert (He : Engine.currentStatus s = Engine.Error) by (vm_compute; reflexivity).
  split; [exact Hr|]. split; [exact He|].
  exact (proj2 (proj2 (restart_after_error_fails_fast noNumberFormat s "timeout" Hr He))).
Defined.


Lemma reachable_available_commands_witness :
  let s := Engine.stateOf (Engine.run noNumberFormat connectedRun Engine.initial) in
  Engine.reachable noNumberFormat s /\
  Engine.availableCommands s =
  ["clear"; "help"; "keywords"; "rephrase"; "rewrite"; "summarise"; "tone"].
Proof.
  intro s. assert (Hr : Engine.reachable noNumberFormat s) by (exists connectedRun; reflexivity).
  split; [exact Hr|]. rewrite (reachable_available_commands noNumberFormat s Hr).
  vm_compute. reflexivity.
Defined.

Lemma reachable_executing_iff_pending_witness :
  let s := Engine.stateOf (Engine.run noNumberFormat pendingRun Engine.initial) in
  Engine.reachable noNumberFormat s /\ Engine.executionState s = CM.Executing.
Proof.
  intro s. assert (Hr : Engine.reachable noNumberFormat s) by (exists pendingRun; reflexivity).
  split; [exact Hr|]. apply (reachable_executing_iff_pending noNumberFormat s Hr).
  vm_compute. discriminate.
Defined.

Lemma reachable_failure_counter_bounds_witness :
  let s := Engine.stateOf (Engine.run noNumberFormat connectedRun Engine.initial) in
  Engine.reachable noNumberFormat s /\
  (Engine.consecutiveFailures s < Engine.MAX_RETRY_ATTEMPTS)%Z.
Proof.
  intro s. assert (Hr : Engine.reachable noNumberFormat s) by (exists connectedRun; reflexivity).
  split; [exact Hr|]. apply (proj2 (reachable_failure_counter_bounds noNumberFormat s Hr)).
  vm_compute. reflexivity.
Defined.

Lemma setStatus_signals_witness :
  In Engine.ServerReady (Engine.eventsOf (Engine.setStatus Engine.Connected Engine.initial)).
Proof.
  apply (proj2 (proj2 (proj2 (setStatus_signals Engine.Connected Engine.initial)))).
  split; [reflexivity|discriminate].
Defined.
